(** * EmailSenderTool: a shallow embedding of [email_sender/email_sender.py]

    The tool picks one SMTP account out of the configured ones, parses the
    comma-separated recipient parameters, composes a MIME text message and
    hands it to an implicit-TLS SMTP session.  The embedding keeps the
    Python data as the code has it: [str] is a sequence of Unicode code
    points, a [dict] is a finite map from key names to dynamically typed
    values, and the handler runs in a small monad that records every call
    made to the mail transport and carries raised exceptions. *)

From Stdlib Require Import ZArith NArith Ascii String DecimalString.
From stdpp Require Import base option list strings gmap.

Local Open Scope N_scope.

(** ** Python [str]: sequences of code points *)

Module PyStr.

Abbreviation str := (list N).

(** [decode_utf8] reads the bytes of a source literal as code points, so
    that the messages of the source can be written as they stand there. *)
Fixpoint decode_utf8 (bs : list N) : str :=
  match bs with
  | [] => []
  | b :: r =>
      if b <? 128 then b :: decode_utf8 r
      else if b <? 224 then
        match r with
        | c1 :: r1 => ((b - 192) * 64 + (c1 - 128)) :: decode_utf8 r1
        | _ => []
        end
      else if b <? 240 then
        match r with
        | c1 :: c2 :: r2 =>
            ((b - 224) * 4096 + (c1 - 128) * 64 + (c2 - 128)) :: decode_utf8 r2
        | _ => []
        end
      else
        match r with
        | c1 :: c2 :: c3 :: r3 =>
            ((b - 240) * 262144 + (c1 - 128) * 4096 + (c2 - 128) * 64 + (c3 - 128))
              :: decode_utf8 r3
        | _ => []
        end
  end.

Definition u (s : string) : str :=
  decode_utf8 (map N_of_ascii (list_ascii_of_string s)).

(** [str.isspace] on one character: the code points CPython's
    [Py_UNICODE_ISSPACE] accepts.  [str.strip()] without argument removes
    exactly these. *)
Definition isspace (c : N) : bool :=
  ((9 <=? c) && (c <=? 13)) || ((28 <=? c) && (c <=? 32))
  || (c =? 133) || (c =? 160) || (c =? 5760)
  || ((8192 <=? c) && (c <=? 8202))
  || (c =? 8232) || (c =? 8233) || (c =? 8239) || (c =? 8287) || (c =? 12288).

Fixpoint lstrip (s : str) : str :=
  match s with
  | [] => []
  | c :: s' => if isspace c then lstrip s' else s
  end.

Definition rstrip (s : str) : str := rev (lstrip (rev s)).

(** [s.strip()] *)
Definition strip (s : str) : str := rstrip (lstrip s).

Definition comma : N := 44.

(** [s.split(sep)] for a one-character separator: always at least one
    piece, empty pieces kept. *)
Fixpoint split (sep : N) (s : str) : list str :=
  match s with
  | [] => [[]]
  | c :: s' =>
      if c =? sep then [] :: split sep s'
      else match split sep s' with
           | [] => [[c]]
           | p :: ps => (c :: p) :: ps
           end
  end.

(** [sep.join(l)] *)
Fixpoint join (sep : str) (l : list str) : str :=
  match l with
  | [] => []
  | [x] => x
  | x :: l' => x ++ sep ++ join sep l'
  end.

(** Truth value of a [str]: non-empty. *)
Definition str_truthy (s : str) : bool :=
  match s with [] => false | _ => true end.

(** The comprehension of lines 47, 55 and 56 over the pieces of the split:
    [[email.strip() for email in pieces if email.strip()]]. *)
Definition strip_nonempty (pieces : list str) : list str :=
  map strip (filter (fun email => str_truthy (strip email) = true) pieces).

(** The whole of it on a source string [src]:
    [[email.strip() for email in src.split(',') if email.strip()]]. *)
Definition parse_emails (src : str) : list str :=
  strip_nonempty (split comma src).

(** The same in the words of the specification: split on [','], trim
    each element, drop the empty ones. *)
Definition parse_spec (src : str) : list str :=
  filter (fun e => e <> []) (map strip (split comma src)).

(** Whitespace only; no whitespace at the front; none at the back. *)
Definition all_space (s : str) : Prop := Forall (fun c => isspace c = true) s.
Definition no_lead (s : str) : Prop :=
  match s with [] => True | c :: _ => isspace c = false end.
Definition no_trail (s : str) : Prop := no_lead (rev s).

End PyStr.
Import PyStr.

(** ** Python values, exceptions and dictionaries *)

(** The scalar values a credential record or a parameter map can hold. *)
Inductive value :=
| VNone
| VBool (b : bool)
| VInt (n : Z)
| VStr (s : str).

Inductive exc_type := KeyError | TypeError | ValueError | AttributeError | IndexError | LibraryError.

(** An instance of a subclass of [Exception]; [exc_str] is [str(e)]. *)
Record exception := Exc { exc_kind : exc_type; exc_str : str }.

Inductive result (A : Type) :=
| Ok (a : A)
| Raise (e : exception).
Arguments Ok {A} a.
Arguments Raise {A} e.

Abbreviation dict := (gmap string value).

(** [bool(v)] *)
Definition truthy (v : value) : bool :=
  match v with
  | VNone => false
  | VBool b => b
  | VInt n => negb (n =? 0)%Z
  | VStr s => str_truthy s
  end.

(** [bool(d)] for a dictionary and [bool(l)] for a list: non-empty. *)
Definition dict_truthy (d : dict) : bool := negb (bool_decide (d = ∅)).

Definition list_truthy {A} (l : list A) : bool :=
  match l with [] => false | _ => true end.

(** [v == w]; [bool] is a subclass of [int], values of unrelated types
    are unequal. *)
Definition py_eq (v w : value) : bool :=
  match v, w with
  | VNone, VNone => true
  | VStr s, VStr t => bool_decide (s = t)
  | VInt n, VInt m => (n =? m)%Z
  | VBool b, VBool c => Bool.eqb b c
  | VBool b, VInt m => ((if b then 1 else 0) =? m)%Z
  | VInt n, VBool c => (n =? (if c then 1 else 0))%Z
  | _, _ => false
  end.

(** [str(v)], which is also what an f-string field [{v}] inserts. *)
Definition str_of (v : value) : str :=
  match v with
  | VNone => u "None"
  | VBool true => u "True"
  | VBool false => u "False"
  | VInt n => u (NilEmpty.string_of_int (Z.to_int n))
  | VStr s => s
  end.

Definition type_name (v : value) : string :=
  match v with
  | VNone => "NoneType"
  | VBool _ => "bool"
  | VInt _ => "int"
  | VStr _ => "str"
  end.

(** [d.get(key)] and [d.get(key, default)] *)
Definition get (d : dict) (key : string) : value := default VNone (d !! key).
Definition get_or (d : dict) (key : string) (dflt : value) : value := default dflt (d !! key).

(** [d[key]]: [KeyError(key)] when absent; [str] of it is [repr(key)]. *)
Definition getitem (d : dict) (key : string) : result value :=
  match d !! key with
  | Some v => Ok v
  | None => Raise (Exc KeyError (u ("'" +:+ key +:+ "'")))
  end.

(** [v.split(',')]: only a [str] has the method. *)
Definition split_comma (v : value) : result (list str) :=
  match v with
  | VStr s => Ok (split comma s)
  | _ => Raise (Exc AttributeError
                  (u ("'" +:+ type_name v +:+ "' object has no attribute 'split'")))
  end.

(** [next((c for c in l if p(c)), None)] *)
Fixpoint next_or_none {A} (p : A -> bool) (l : list A) : option A :=
  match l with
  | [] => None
  | c :: l' => if p c then Some c else next_or_none p l'
  end.

(** ** The mail transport and the handler's monad *)

(** One call made to the SMTP client, in the order the handler makes
    them.  [EvClose] is the release done by leaving the [with] block. *)
Inductive event :=
| EvConnect (server : value) (port : Z)
| EvLogin (user password : value)
| EvSendmail (from_addr : value) (to_addrs : list str) (msg : str)
| EvClose.

(** A computation of the handler: it extends the log of transport calls
    and either returns or raises. *)
Definition M (A : Type) : Type := list event -> result A * list event.

Definition ret {A} (a : A) : M A := fun log => (Ok a, log).
Definition raise {A} (e : exception) : M A := fun log => (Raise e, log).
Definition bind {A B} (m : M A) (k : A -> M B) : M B :=
  fun log =>
    match m log with
    | (Ok a, log') => k a log'
    | (Raise e, log') => (Raise e, log')
    end.
Definition lift {A} (r : result A) : M A := fun log => (r, log).

(** A call to the transport: logged, then it raises or not. *)
Definition call (ev : event) (outcome : option exception) : M unit :=
  fun log =>
    (match outcome with None => Ok tt | Some e => Raise e end, log ++ [ev]).

(** [try: body / except Exception as e: handler(e)] *)
Definition try_except {A} (body : M A) (handler : exception -> M A) : M A :=
  fun log =>
    match body log with
    | (Ok a, log') => (Ok a, log')
    | (Raise e, log') => handler e log'
    end.

Notation "'do' x <- m ; k" := (bind m (fun x => k))
  (at level 10, x name, m at level 100, k at level 200).
Notation "'exec' m ; k" := (bind m (fun _ => k))
  (at level 10, m at level 100, k at level 200).

Definition run {A} (m : M A) : result A * list event := m [].

(** ** The message object *)

(** [Header(s, charset)] *)
Record Header := { h_value : value; h_charset : value }.

(** [MIMEText(_text, _subtype, _charset)] together with the header fields
    assigned to it afterwards, in assignment order. *)
Record MIMEText := {
  _text : value;
  _subtype : value;
  _charset : value;
  headers : list (string * Header) }.

(** [message[name] = h] *)
Definition setitem (message : MIMEText) (name : string) (h : Header) : MIMEText :=
  {| _text := _text message; _subtype := _subtype message;
     _charset := _charset message; headers := headers message ++ [(name, h)] |}.

(** ** The libraries the handler calls *)

(** What lies outside the repository: the [int] builtin on a [str], the
    [email] package (its constructors can reject a charset or a text, and
    so can serialisation) and [smtplib].  Each transport operation
    answers [None] when it succeeds and [Some e] when it raises [e].
    [smtp_quit] is the [__exit__] of the session, which sends [QUIT] and
    raises when the reply is not 221; it is given the calls made so
    far. *)
Record library := {
  int_of_str : str -> result Z;
  MIMEText_init : value -> value -> value -> option exception;
  Header_init : value -> value -> option exception;
  as_string : MIMEText -> result str;
  smtp_connect : value -> Z -> option exception;
  smtp_login : value -> value -> option exception;
  smtp_sendmail : value -> list str -> str -> option exception;
  smtp_quit : list event -> option exception }.

(** What the platform injects as [self.runtime.credentials]: the entry
    ['smtp_accounts'], when present, is the list of account records. *)
Record credentials_t := { smtp_accounts : option (list dict) }.

(** The two kinds of message the tool hands back. *)
Inductive ToolInvokeMessage :=
| TextMessage (text : str)
| JsonMessage (obj : list (string * str)).

Definition create_text_message (text : str) : ToolInvokeMessage := TextMessage text.
Definition create_json_message (obj : list (string * str)) : ToolInvokeMessage := JsonMessage obj.

(** The literals of the source. *)
Definition msg_no_accounts : str :=
  u "错误：未在工具中配置任何发件人账号。请前往“工具”页面进行配置。".
Definition msg_not_found (selected_account_name : value) : str :=
  u "错误：找不到名为 '" ++ str_of selected_account_name ++ u "' 的发件账号配置。".
Definition msg_empty_to : str := u "错误：收件人邮箱(to_emails)不能为空。".
Definition default_subject : str := u "来自 Dify 的邮件通知".
Definition send_failed_prefix : str := u "邮件发送失败: ".

(** Outcome of choosing the account (lines 31 to 44): the record to use,
    or the text of the message returned at line 38. *)
Inductive selection :=
| Selected (target_config : dict)
| Rejected (text : str).

(** ** The tool *)

Section Tool.
Context (lib : library).

(** [int(v)] *)
Definition py_int (v : value) : result Z :=
  match v with
  | VInt n => Ok n
  | VBool b => Ok (if b then 1 else 0)%Z
  | VStr s => int_of_str lib s
  | VNone =>
      Raise (Exc TypeError
        (u "int() argument must be a string, a bytes-like object or a real number, not 'NoneType'"))
  end.

(** [c.get('name') == selected_account_name] and [c.get('is_default', False)]
    as the conditions of the two generator expressions. *)
Definition has_name (selected_account_name : value) (c : dict) : bool :=
  py_eq (get c "name") selected_account_name.
Definition is_default (c : dict) : bool :=
  truthy (get_or c "is_default" (VBool false)).

(** Lines 31 to 44: which account to send from. *)
Definition select_account (smtp_configs : list dict) (selected_account_name : value)
  : result selection :=
  if truthy selected_account_name then
    match next_or_none (has_name selected_account_name) smtp_configs with
    | Some target_config =>
        if dict_truthy target_config then Ok (Selected target_config)
        else Ok (Rejected (msg_not_found selected_account_name))
    | None => Ok (Rejected (msg_not_found selected_account_name))
    end
  else
    let first :=
      match smtp_configs with
      | c0 :: _ => Ok (Selected c0)
      | [] => Raise (Exc IndexError (u "list index out of range"))
      end in
    match next_or_none is_default smtp_configs with
    | Some target_config =>
        if dict_truthy target_config then Ok (Selected target_config) else first
    | None => first
    end.

(** Lines 47, 55, 56: [tool_parameters.get(key, '')] split and cleaned. *)
Definition recipients (tool_parameters : dict) (key : string) : result (list str) :=
  match split_comma (get_or tool_parameters key (VStr [])) with
  | Ok pieces => Ok (strip_nonempty pieces)
  | Raise e => Raise e
  end.

(** [MIMEText(body, mail_type, encoding)] *)
Definition new_MIMEText (body mail_type encoding : value) : M MIMEText :=
  match MIMEText_init lib body mail_type encoding with
  | Some e => raise e
  | None => ret {| _text := body; _subtype := mail_type; _charset := encoding; headers := [] |}
  end.

(** [message[name] = Header(s, encoding)] *)
Definition set_header (message : MIMEText) (name : string) (s encoding : value) : M MIMEText :=
  match Header_init lib s encoding with
  | Some e => raise e
  | None => ret (setitem message name {| h_value := s; h_charset := encoding |})
  end.

(** Lines 68 to 73. *)
Definition compose (sender smtp_user subject body mail_type encoding : value)
    (to_emails cc_emails : list str) : M MIMEText :=
  do message <- new_MIMEText body mail_type encoding;
  do message <- set_header message "From"
                  (VStr (str_of sender ++ u " <" ++ str_of smtp_user ++ u ">")) encoding;
  do message <- set_header message "To" (VStr (join (u ", ") to_emails)) encoding;
  do message <- (if list_truthy cc_emails
                 then set_header message "Cc" (VStr (join (u ", ") cc_emails)) encoding
                 else ret message);
  set_header message "Subject" subject encoding.

(** Leaving the [with] block with the outcome [r] of its body: the
    session is released, and when the release itself raises, that
    exception takes the place of the outcome of the body. *)
Definition release {A} (r : result A) (log : list event) : result A * list event :=
  (match smtp_quit lib log with Some e => Raise e | None => r end, log ++ [EvClose]).

(** [with smtplib.SMTP_SSL(server, port, timeout=10) as server: body].
    When the constructor raises there is nothing to release; once it has
    returned, the session is released however the body ends. *)
Definition with_SMTP_SSL {A} (server : value) (port : Z) (body : M A) : M A :=
  exec call (EvConnect server port) (smtp_connect lib server port);
  fun log => let '(r, log') := body log in release r log'.

(** Lines 61 to 65: the fields read from the chosen record. *)
Record smtp_fields := {
  smtp_server : value;
  smtp_port : Z;
  smtp_user : value;
  smtp_password : value;
  sender_name : value }.

Definition extract (target_config : dict) : result smtp_fields :=
  match getitem target_config "server" with
  | Raise e => Raise e
  | Ok server =>
  match getitem target_config "port" with
  | Raise e => Raise e
  | Ok port =>
  match py_int port with
  | Raise e => Raise e
  | Ok port_number =>
  match getitem target_config "user" with
  | Raise e => Raise e
  | Ok user =>
  match getitem target_config "password" with
  | Raise e => Raise e
  | Ok password =>
  match getitem target_config "sender_name" with
  | Raise e => Raise e
  | Ok name =>
      Ok {| smtp_server := server; smtp_port := port_number; smtp_user := user;
            smtp_password := password; sender_name := name |}
  end end end end end end.

Definition json_success : ToolInvokeMessage :=
  create_json_message [("status", u "success"); ("error_message", [])].

Definition json_error (e : exception) : ToolInvokeMessage :=
  create_json_message
    [("status", u "error"); ("error_message", send_failed_prefix ++ exc_str e)].

(** Lines 76 to 78: the session. *)
Definition deliver (f : smtp_fields) (message : MIMEText)
    (to_emails cc_emails bcc_emails : list str) : M unit :=
  with_SMTP_SSL (smtp_server f) (smtp_port f)
    (exec call (EvLogin (smtp_user f) (smtp_password f))
               (smtp_login lib (smtp_user f) (smtp_password f));
     let envelope := to_emails ++ cc_emails ++ bcc_emails in
     do raw <- lift (as_string lib message);
     call (EvSendmail (smtp_user f) envelope raw)
          (smtp_sendmail lib (smtp_user f) envelope raw)).

(** Lines 60 to 85: the body of the [try]. *)
Definition send_block (target_config : dict) (subject body mail_type encoding : value)
    (to_emails cc_emails bcc_emails : list str) : M ToolInvokeMessage :=
  do f <- lift (extract target_config);
  do message <- compose (sender_name f) (smtp_user f) subject body mail_type encoding
                  to_emails cc_emails;
  exec deliver f message to_emails cc_emails bcc_emails;
  ret json_success.

(** Lines 87 to 92: the [except Exception as e] clause. *)
Definition on_exception (e : exception) : M ToolInvokeMessage :=
  ret (json_error e).

Definition _invoke (credentials : credentials_t) (user_id : str) (tool_parameters : dict)
  : M ToolInvokeMessage :=
  let smtp_configs := default [] (smtp_accounts credentials) in
  if negb (list_truthy smtp_configs) then ret (create_text_message msg_no_accounts)
  else
    let selected_account_name := get tool_parameters "sender_account" in
    do choice <- lift (select_account smtp_configs selected_account_name);
    match choice with
    | Rejected text => ret (create_text_message text)
    | Selected target_config =>
        do to_emails <- lift (recipients tool_parameters "to_emails");
        if negb (list_truthy to_emails) then ret (create_text_message msg_empty_to)
        else
          let subject := get_or tool_parameters "subject" (VStr default_subject) in
          let body := get_or tool_parameters "body" (VStr []) in
          let mail_type := get_or tool_parameters "mail_type" (VStr (u "html")) in
          let encoding := get_or tool_parameters "encoding" (VStr (u "utf-8")) in
          do cc_emails <- lift (recipients tool_parameters "cc_emails");
          do bcc_emails <- lift (recipients tool_parameters "bcc_emails");
          try_except
            (send_block target_config subject body mail_type encoding
               to_emails cc_emails bcc_emails)
            on_exception
    end.

(** Lines 94 to 111. *)
Definition test_connection (credentials : dict) : M (list (string * str)) :=
  try_except
    (let server := get credentials "server" in
     do port <- lift (py_int (get credentials "port"));
     let user := get credentials "user" in
     let password := get credentials "password" in
     exec with_SMTP_SSL server port (call (EvLogin user password) (smtp_login lib user password));
     ret [("status", u "success")])
    (fun e => ret [("status", u "error"); ("message", exc_str e)]).

End Tool.

(** The header fields of a composed message: [From], [To], [Cc] when there
    are Cc addresses, [Subject]; their values come from the sender, the To
    and Cc lists and the subject. *)
Definition expected_headers (sender smtp_user subject encoding : value)
    (to_emails cc_emails : list str) : list (string * Header) :=
  [("From", {| h_value := VStr (str_of sender ++ u " <" ++ str_of smtp_user ++ u ">");
               h_charset := encoding |});
   ("To", {| h_value := VStr (join (u ", ") to_emails); h_charset := encoding |})]
  ++ (if list_truthy cc_emails
      then [("Cc", {| h_value := VStr (join (u ", ") cc_emails); h_charset := encoding |})]
      else [])
  ++ [("Subject", {| h_value := subject; h_charset := encoding |})].

(** What an invocation is once the account is chosen and the three
    recipient parameters are parsed. *)
Definition reaches_try (credentials : credentials_t) (tool_parameters : dict)
    (target : dict) (to_emails cc_emails bcc_emails : list str) : Prop :=
  let accounts := default [] (smtp_accounts credentials) in
  accounts <> []
  /\ select_account accounts (get tool_parameters "sender_account") = Ok (Selected target)
  /\ recipients tool_parameters "to_emails" = Ok to_emails
  /\ to_emails <> []
  /\ recipients tool_parameters "cc_emails" = Ok cc_emails
  /\ recipients tool_parameters "bcc_emails" = Ok bcc_emails.

(** ** Concrete libraries for the examples *)

(** ASCII decimal literals with an optional sign; enough for the ports of
    the examples. *)
Fixpoint digits_value (acc : Z) (s : str) : option Z :=
  match s with
  | [] => Some acc
  | c :: s' =>
      if (48 <=? c) && (c <=? 57) then digits_value (acc * 10 + Z.of_N (c - 48))%Z s'
      else None
  end.

Definition int_of_ascii (s : str) : result Z :=
  let bad := Raise (Exc ValueError (u "invalid literal for int() with base 10: '" ++ s ++ u "'")) in
  match strip s with
  | [] => bad
  | c :: r =>
      let '(neg, ds) := if c =? 45 then (true, r) else if c =? 43 then (false, r) else (false, c :: r) in
      match ds, digits_value 0 ds with
      | _ :: _, Some n => Ok (if neg then - n else n)%Z
      | _, _ => bad
      end
  end.

(** A transport on which every operation succeeds, and one that refuses
    to authenticate. *)
Definition lib_ok : library := {|
  int_of_str := int_of_ascii;
  MIMEText_init := fun _ _ _ => None;
  Header_init := fun _ _ => None;
  as_string := fun m => Ok (join (u "; ") (map (fun h => u (fst h)) (headers m)));
  smtp_connect := fun _ _ => None;
  smtp_login := fun _ _ => None;
  smtp_sendmail := fun _ _ _ => None;
  smtp_quit := fun _ => None |}.

Definition auth_error : exception :=
  Exc LibraryError (u "(535, b'Error: authentication failed')").

Definition lib_auth_fails : library := {|
  int_of_str := int_of_ascii;
  MIMEText_init := fun _ _ _ => None;
  Header_init := fun _ _ => None;
  as_string := fun m => Ok (join (u "; ") (map (fun h => u (fst h)) (headers m)));
  smtp_connect := fun _ _ => None;
  smtp_login := fun _ _ => Some auth_error;
  smtp_sendmail := fun _ _ _ => None;
  smtp_quit := fun _ => None |}.

(** A transport that refuses to authenticate and then answers [QUIT]
    with 421. *)
Definition quit_error : exception := Exc LibraryError (u "(421, b'closing')").

Definition lib_quit_fails : library := {|
  int_of_str := int_of_ascii;
  MIMEText_init := fun _ _ _ => None;
  Header_init := fun _ _ => None;
  as_string := fun m => Ok (join (u "; ") (map (fun h => u (fst h)) (headers m)));
  smtp_connect := fun _ _ => None;
  smtp_login := fun _ _ => Some auth_error;
  smtp_sendmail := fun _ _ _ => None;
  smtp_quit := fun _ => Some quit_error |}.

Definition account (name : string) (is_default : bool) : dict :=
  <["name" := VStr (u name)]> (<["is_default" := VBool is_default]>
  (<["server" := VStr (u "smtp.example.com")]> (<["port" := VStr (u "465")]>
  (<["user" := VStr (u "bot@example.com")]> (<["password" := VStr (u "secret")]>
  (<["sender_name" := VStr (u "Bot")]> ∅)))))).

(** A record whose [port] entry is missing. *)
Definition no_port_record : dict :=
  <["server" := VStr (u "smtp.example.com")]> (<["user" := VStr (u "bot@example.com")]>
  (<["password" := VStr (u "secret")]> (<["sender_name" := VStr (u "Bot")]> ∅))).

Definition request (fields : list (string * string)) : dict :=
  list_to_map (map (fun kv => (fst kv, VStr (u (snd kv)))) fields).

(** Account lists and parameter maps of the examples. *)
Definition two_accounts : list dict := [account "a" false; account "b" true].

Definition full_request : dict :=
  request [("to_emails", "t@x.com"); ("cc_emails", "c@x.com"); ("bcc_emails", "b@x.com")].

Definition plain_request : dict := request [("to_emails", "t@x.com")].

(** The [AttributeError] of calling [.split] on a value that is no [str]. *)
Definition no_split_error (v : value) : exception :=
  Exc AttributeError (u ("'" +:+ type_name v +:+ "' object has no attribute 'split'")).

Definition is_str (v : value) : bool :=
  match v with VStr _ => true | _ => false end.

(** A request whose optional [cc_emails] is present but [None]. *)
Definition none_cc_request : dict := <["cc_emails" := VNone]> plain_request.

(** The log of one session: nothing; a connect that failed and nothing
    after it; or a connect that succeeded, followed by logins and
    submissions only, and closed by exactly one release at the end. *)
Definition session_log (lib : library) (trace : list event) : Prop :=
  trace = []
  \/ (exists server port e,
        trace = [EvConnect server port] /\ smtp_connect lib server port = Some e)
  \/ (exists server port mid,
        trace = EvConnect server port :: mid ++ [EvClose]
        /\ smtp_connect lib server port = None
        /\ Forall (fun ev => match ev with
                             | EvLogin _ _ | EvSendmail _ _ _ => True
                             | _ => False
                             end) mid).

(** * Properties *)

Example parse_example :
  parse_emails (u " x@a.com , y@b.com ,, ") = [u "x@a.com"; u "y@b.com"].
Proof. reflexivity. Qed.

Example str_of_example : str_of (VInt (-465)) = u "-465" /\ str_of (VInt 0) = u "0".
Proof. split; reflexivity. Qed.

Example getitem_example :
  getitem (<["port" := VInt 465]> ∅) "server" = Raise (Exc KeyError (u "'server'")).
Proof. reflexivity. Qed.

Example send_example :
  run (_invoke lib_ok {| smtp_accounts := Some [account "a" false; account "b" true] |} []
         (request [("to_emails", "t@x.com"); ("cc_emails", "c@x.com"); ("bcc_emails", "b@x.com")]))
  = (Ok (JsonMessage [("status", u "success"); ("error_message", [])]),
     [EvConnect (VStr (u "smtp.example.com")) 465;
      EvLogin (VStr (u "bot@example.com")) (VStr (u "secret"));
      EvSendmail (VStr (u "bot@example.com")) [u "t@x.com"; u "c@x.com"; u "b@x.com"]
        (u "From; To; Cc; Subject");
      EvClose]).
Proof. vm_compute. reflexivity. Qed.

(** ** Facts about [strip], [split] and [join] *)

Section StrFacts.

Lemma lstrip_split (s : str) : exists a, s = a ++ lstrip s /\ all_space a.
Proof.
  induction s as [|c s IH]; simpl.
  - exists []. split; [reflexivity | constructor].
  - destruct (isspace c) eqn:Hc.
    + destruct IH as (a & Ha & Hsp). exists (c :: a). split.
      * simpl. congruence.
      * constructor; assumption.
    + exists []. split; [reflexivity | constructor].
Qed.

Lemma lstrip_no_lead (s : str) : no_lead (lstrip s).
Proof.
  induction s as [|c s IH]; simpl; [exact I|].
  destruct (isspace c) eqn:Hc; [assumption | simpl; assumption].
Qed.

Lemma lstrip_fixed (s : str) : no_lead s -> lstrip s = s.
Proof. destruct s as [|c s]; simpl; [reflexivity|]. intros ->. reflexivity. Qed.

Lemma lstrip_idem (s : str) : lstrip (lstrip s) = lstrip s.
Proof. apply lstrip_fixed, lstrip_no_lead. Qed.

Lemma rstrip_split (s : str) : exists b, s = rstrip s ++ b /\ all_space b.
Proof.
  unfold rstrip. destruct (lstrip_split (rev s)) as (a & Ha & Hsp).
  exists (rev a). split.
  - rewrite <- rev_app_distr, <- Ha, rev_involutive. reflexivity.
  - unfold all_space in *. rewrite Forall_forall in *.
    intros c Hc. apply Hsp. apply list_elem_of_In, in_rev.
    apply list_elem_of_In. exact Hc.
Qed.

Lemma rstrip_no_trail (s : str) : no_trail (rstrip s).
Proof. unfold no_trail, rstrip. rewrite rev_involutive. apply lstrip_no_lead. Qed.

Lemma rstrip_fixed (s : str) : no_trail s -> rstrip s = s.
Proof.
  unfold no_trail, rstrip. intros H. rewrite lstrip_fixed by assumption.
  apply rev_involutive.
Qed.

Lemma rstrip_keeps_no_lead (s : str) : no_lead s -> no_lead (rstrip s).
Proof.
  intros H. destruct (rstrip_split s) as (b & Hb & _).
  destruct (rstrip s) as [|c r] eqn:E; [exact I|].
  rewrite Hb in H. exact H.
Qed.

Lemma strip_no_lead (s : str) : no_lead (strip s).
Proof. apply rstrip_keeps_no_lead, lstrip_no_lead. Qed.

Lemma strip_no_trail (s : str) : no_trail (strip s).
Proof. apply rstrip_no_trail. Qed.

(** [strip] removes a run of whitespace at each end and nothing else. *)
Lemma strip_split (s : str) :
  exists a b, s = a ++ strip s ++ b /\ all_space a /\ all_space b.
Proof.
  destruct (lstrip_split s) as (a & Ha & Hsa).
  destruct (rstrip_split (lstrip s)) as (b & Hb & Hsb).
  exists a, b. unfold strip. rewrite <- Hb. auto.
Qed.

Lemma strip_fixed (s : str) : no_lead s -> no_trail s -> strip s = s.
Proof.
  intros Hl Ht. unfold strip. rewrite lstrip_fixed by assumption.
  apply rstrip_fixed. assumption.
Qed.

Lemma strip_idem (s : str) : strip (strip s) = strip s.
Proof. apply strip_fixed; [apply strip_no_lead | apply strip_no_trail]. Qed.

Lemma strip_In (s : str) (c : N) : In c (strip s) -> In c s.
Proof.
  destruct (strip_split s) as (a & b & Hs & _). intros H.
  rewrite Hs. apply in_or_app. right. apply in_or_app. left. exact H.
Qed.

(** [split] *)

Lemma split_not_nil (sep : N) (s : str) : split sep s <> [].
Proof.
  destruct s as [|c s]; simpl; [discriminate|].
  destruct (c =? sep); [discriminate|].
  destruct (split sep s); discriminate.
Qed.

Lemma join_cons (sep x : str) (y : str) (l : list str) :
  join sep (x :: y :: l) = x ++ sep ++ join sep (y :: l).
Proof. reflexivity. Qed.

(** Joining the pieces with the separator gives the string back. *)
Lemma split_join (sep : N) (s : str) : join [sep] (split sep s) = s.
Proof.
  induction s as [|c s IH]; simpl; [reflexivity|].
  destruct (c =? sep) eqn:Hc.
  - apply N.eqb_eq in Hc. subst c.
    destruct (split sep s) as [|p ps] eqn:E.
    + exfalso. exact (split_not_nil sep s E).
    + rewrite join_cons, IH. reflexivity.
  - destruct (split sep s) as [|p ps] eqn:E.
    + exfalso. exact (split_not_nil sep s E).
    + destruct ps as [|q ps].
      * simpl in *. congruence.
      * rewrite join_cons in IH. rewrite join_cons, <- IH. reflexivity.
Qed.

(** No piece holds the separator. *)
Lemma split_no_sep (sep : N) (s : str) : Forall (fun p => ~ In sep p) (split sep s).
Proof.
  induction s as [|c s IH]; simpl.
  - constructor; [intros [] | constructor].
  - destruct (c =? sep) eqn:Hc.
    + constructor; [intros [] | assumption].
    + apply N.eqb_neq in Hc.
      destruct (split sep s) as [|p ps]; simpl.
      * constructor; [|constructor]. intros [H|[]]. congruence.
      * inversion IH as [|? ? Hp Hps]; subst. constructor; [|assumption].
        intros [H|H]; [congruence | contradiction].
Qed.

Lemma split_one (sep : N) (x : str) : ~ In sep x -> split sep x = [x].
Proof.
  induction x as [|c x IH]; simpl; intros H; [reflexivity|].
  destruct (c =? sep) eqn:Hc.
  - apply N.eqb_eq in Hc. exfalso. apply H. left. assumption.
  - rewrite IH; [reflexivity|]. intros Hx. apply H. right. assumption.
Qed.

Lemma split_app (sep : N) (x r : str) :
  ~ In sep x -> split sep (x ++ sep :: r) = x :: split sep r.
Proof.
  induction x as [|c x IH]; simpl; intros H.
  - rewrite N.eqb_refl. reflexivity.
  - destruct (c =? sep) eqn:Hc.
    + apply N.eqb_eq in Hc. exfalso. apply H. left. assumption.
    + rewrite IH; [reflexivity|]. intros Hx. apply H. right. assumption.
Qed.

(** Splitting a join of separator-free pieces gives the pieces back. *)
Lemma split_of_join (sep : N) (l : list str) :
  l <> [] -> Forall (fun p => ~ In sep p) l -> split sep (join [sep] l) = l.
Proof.
  induction l as [|x l IH]; intros Hne Hall; [congruence|].
  inversion Hall as [|? ? Hx Hl]; subst.
  destruct l as [|y l].
  - simpl. apply split_one. assumption.
  - rewrite join_cons.
    change (x ++ [sep] ++ join [sep] (y :: l)) with (x ++ sep :: join [sep] (y :: l)).
    rewrite split_app by assumption.
    rewrite IH; [reflexivity | discriminate | assumption].
Qed.

(** The comprehension *)

Lemma str_truthy_true (s : str) : str_truthy s = true <-> s <> [].
Proof. destruct s; simpl; split; congruence. Qed.

Lemma strip_nonempty_cons (p : str) (pieces : list str) :
  strip_nonempty (p :: pieces) =
  if str_truthy (strip p) then strip p :: strip_nonempty pieces
  else strip_nonempty pieces.
Proof.
  unfold strip_nonempty. rewrite filter_cons.
  destruct (str_truthy (strip p)) eqn:E; case_decide; simpl; congruence.
Qed.

Lemma strip_nonempty_fixed (l : list str) :
  Forall (fun e => strip e = e /\ e <> []) l -> strip_nonempty l = l.
Proof.
  induction 1 as [|e l [He Hne] Hl IH]; [reflexivity|].
  rewrite strip_nonempty_cons, He.
  apply str_truthy_true in Hne. rewrite Hne, IH. reflexivity.
Qed.

Lemma strip_nonempty_elems (sep : N) (pieces : list str) :
  Forall (fun p => ~ In sep p) pieces ->
  Forall (fun e => (strip e = e /\ e <> []) /\ ~ In sep e) (strip_nonempty pieces).
Proof.
  induction 1 as [|p l Hp Hl IH]; [constructor|].
  rewrite strip_nonempty_cons.
  destruct (str_truthy (strip p)) eqn:E; [|assumption].
  constructor; [|assumption]. repeat split.
  - apply strip_idem.
  - apply str_truthy_true. assumption.
  - intros H. apply Hp. apply strip_In. assumption.
Qed.

End StrFacts.

(** ** Recipient parsing *)

Lemma strip_nonempty_spec (pieces : list str) :
  strip_nonempty pieces = filter (fun e => e <> []) (map strip pieces).
Proof.
  induction pieces as [|p l IH]; [reflexivity|].
  rewrite strip_nonempty_cons. simpl map. rewrite filter_cons, IH.
  destruct (strip p) as [|c r]; simpl str_truthy; case_decide;
    congruence || reflexivity.
Qed.

(** C6. Parsing a recipient source string splits it at every comma (the
    pieces joined by commas give the string back and hold no comma), trims
    the whitespace around each piece (what is removed at either end is
    whitespace only, what is left neither starts nor ends with it), drops
    the pieces that are empty after trimming, and keeps the others in
    their order, duplicates included. *)
Theorem C6_parse_emails_spec (src : str) :
  parse_emails src = parse_spec src
  /\ join [comma] (split comma src) = src
  /\ Forall (fun p => ~ In comma p) (split comma src)
  /\ (forall p : str, exists a b,
        p = a ++ strip p ++ b /\ all_space a /\ all_space b
        /\ no_lead (strip p) /\ no_trail (strip p)).
Proof.
  split; [apply strip_nonempty_spec|].
  split; [apply split_join|].
  split; [apply split_no_sep|].
  intros p. destruct (strip_split p) as (a & b & Hp & Ha & Hb).
  exists a, b. repeat split; try assumption.
  - apply strip_no_lead.
  - apply strip_no_trail.
Qed.

Lemma parse_emails_reparse (s : str) :
  parse_emails (join [comma] (parse_emails s)) = parse_emails s.
Proof.
  pose proof (strip_nonempty_elems comma _ (split_no_sep comma s)) as Hall.
  fold (parse_emails s) in Hall.
  destruct (parse_emails s) as [|e l] eqn:E; [reflexivity|].
  unfold parse_emails at 1.
  rewrite split_of_join.
  - apply strip_nonempty_fixed. eapply Forall_impl; [exact Hall|].
    intros x [Hx _]. exact Hx.
  - discriminate.
  - eapply Forall_impl; [exact Hall|]. intros x [_ Hx]. exact Hx.
Qed.

(** C7. Parsing the comma-join of a parsed recipient list gives the same
    list again, and [" x@a.com , y@b.com ,, "] parses to the two addresses
    [x@a.com] and [y@b.com]. *)
Theorem C7_parse_idempotent :
  (forall s : str, parse_emails (join [comma] (parse_emails s)) = parse_emails s)
  /\ parse_emails (u " x@a.com , y@b.com ,, ") = [u "x@a.com"; u "y@b.com"].
Proof. split; [exact parse_emails_reparse | reflexivity]. Qed.

(** ** Choosing the account *)

Lemma next_or_none_first {A} (p : A -> bool) (l1 : list A) (c : A) (l2 : list A) :
  Forall (fun x => p x = false) l1 -> p c = true ->
  next_or_none p (l1 ++ c :: l2) = Some c.
Proof.
  induction 1 as [|x l Hx Hl IH]; simpl; intros Hc.
  - rewrite Hc. reflexivity.
  - rewrite Hx. apply IH. assumption.
Qed.

Lemma next_or_none_absent {A} (p : A -> bool) (l : list A) :
  Forall (fun x => p x = false) l -> next_or_none p l = None.
Proof.
  induction 1 as [|x l Hx Hl IH]; simpl; [reflexivity|].
  rewrite Hx. assumption.
Qed.

Lemma next_or_none_holds {A} (p : A -> bool) (l : list A) (c : A) :
  next_or_none p l = Some c -> p c = true.
Proof.
  induction l as [|x l IH]; simpl; [discriminate|].
  destruct (p x) eqn:Hx; [|assumption]. intros [= <-]. assumption.
Qed.

Lemma has_name_str (s : str) (c : dict) :
  has_name (VStr s) c = true <-> c !! "name" = Some (VStr s).
Proof.
  unfold has_name, get. destruct (c !! "name") as [v|]; simpl.
  - destruct v; simpl; try (split; [discriminate | intros [=]]).
    rewrite bool_decide_eq_true. split; congruence.
  - split; discriminate.
Qed.

Lemma has_name_str_false (s : str) (c : dict) :
  c !! "name" <> Some (VStr s) -> has_name (VStr s) c = false.
Proof.
  intros H. destruct (has_name (VStr s) c) eqn:E; [|reflexivity].
  apply has_name_str in E. contradiction.
Qed.

Lemma lookup_dict_truthy (c : dict) (k : string) (v : value) :
  c !! k = Some v -> dict_truthy c = true.
Proof.
  intros H. unfold dict_truthy. apply negb_true_iff, bool_decide_eq_false.
  intros ->. rewrite lookup_empty in H. discriminate.
Qed.

(** A record picked by name for a truthy request, or picked as default,
    holds at least one key: [not target_config] is false for it. *)
Lemma has_name_truthy (v : value) (c : dict) :
  truthy v = true -> has_name v c = true -> dict_truthy c = true.
Proof.
  unfold has_name, get. intros Hv H.
  destruct (c !! "name") as [w|] eqn:E.
  - eapply lookup_dict_truthy. eassumption.
  - simpl in H. destruct v; simpl in *; discriminate.
Qed.

Lemma is_default_truthy (c : dict) : is_default c = true -> dict_truthy c = true.
Proof.
  unfold is_default, get_or. intros H.
  destruct (c !! "is_default") as [w|] eqn:E.
  - eapply lookup_dict_truthy. eassumption.
  - simpl in H. discriminate.
Qed.

Lemma select_account_total (accounts : list dict) (requested : value) :
  accounts <> [] ->
  exists choice, select_account accounts requested = Ok choice.
Proof.
  intros Hne. unfold select_account.
  destruct (truthy requested).
  - destruct (next_or_none _ accounts) as [c|]; [destruct (dict_truthy c)|]; eauto.
  - destruct accounts as [|c0 rest]; [congruence|].
    destruct (next_or_none _ (c0 :: rest)) as [c|]; [destruct (dict_truthy c)|]; eauto.
Qed.

(** C2. With a non-empty account list and a non-empty requested name, the
    account chosen is the first one in list order whose [name] is that
    very string; when no account bears the name, the handler returns the
    account-not-found message that quotes the requested name, and nothing
    is handed to the transport. *)
Theorem C2_named_account (lib : library) (accounts : list dict) (s : str) :
  accounts <> [] -> s <> [] ->
  (forall l1 c l2,
      accounts = l1 ++ c :: l2 ->
      Forall (fun c' : dict => c' !! "name" <> Some (VStr s)) l1 ->
      c !! "name" = Some (VStr s) ->
      select_account accounts (VStr s) = Ok (Selected c))
  /\ (Forall (fun c : dict => c !! "name" <> Some (VStr s)) accounts ->
      forall (user_id : str) (tool_parameters : dict),
        tool_parameters !! "sender_account" = Some (VStr s) ->
        run (_invoke lib {| smtp_accounts := Some accounts |} user_id tool_parameters)
        = (Ok (TextMessage (u "错误：找不到名为 '" ++ s ++ u "' 的发件账号配置。")), [])).
Proof.
  intros Hne Hs.
  assert (Ht : truthy (VStr s) = true) by (apply str_truthy_true; assumption).
  split.
  - intros l1 c l2 -> Hl1 Hc. unfold select_account. rewrite Ht.
    rewrite (next_or_none_first _ l1 c l2).
    + rewrite (lookup_dict_truthy c "name" _ Hc). reflexivity.
    + eapply Forall_impl; [exact Hl1|]. intros x. apply has_name_str_false.
    + apply has_name_str. assumption.
  - intros Hall user_id tp Htp.
    assert (Hsel : select_account accounts (VStr s)
                   = Ok (Rejected (msg_not_found (VStr s)))).
    { unfold select_account. rewrite Ht, next_or_none_absent; [reflexivity|].
      eapply Forall_impl; [exact Hall|]. intros x. apply has_name_str_false. }
    unfold run, _invoke. simpl default.
    destruct accounts as [|c0 rest]; [congruence|].
    unfold get. rewrite Htp. simpl.
    unfold bind, lift. rewrite Hsel. reflexivity.
Qed.

Lemma C2_named_account_witness :
  select_account two_accounts (VStr (u "b")) = Ok (Selected (account "b" true))
  /\ run (_invoke lib_ok {| smtp_accounts := Some two_accounts |} []
            (request [("sender_account", "z"); ("to_emails", "t@x.com")]))
     = (Ok (TextMessage (u "错误：找不到名为 'z' 的发件账号配置。")), []).
Proof.
  split.
  - refine (proj1 (C2_named_account lib_ok two_accounts (u "b") _ _)
              [account "a" false] (account "b" true) [] _ _ _).
    + discriminate.
    + discriminate.
    + reflexivity.
    + repeat constructor. vm_compute. discriminate.
    + vm_compute. reflexivity.
  - refine (proj2 (C2_named_account lib_ok two_accounts (u "z") _ _) _ [] _ _).
    + discriminate.
    + discriminate.
    + repeat constructor; vm_compute; discriminate.
    + vm_compute. reflexivity.
Defined.

(** C3. With a non-empty account list and no account name requested, the
    account chosen is the first one in list order whose [is_default] flag
    holds; when no account is flagged, it is the element at index 0; in
    both cases an account is chosen, never an error. *)
Theorem C3_default_account (accounts : list dict) (requested : value) :
  accounts <> [] -> truthy requested = false ->
  (forall l1 c l2,
      accounts = l1 ++ c :: l2 ->
      Forall (fun c' => is_default c' = false) l1 ->
      is_default c = true ->
      select_account accounts requested = Ok (Selected c))
  /\ (Forall (fun c => is_default c = false) accounts ->
      exists c0, accounts !! 0%nat = Some c0
                 /\ select_account accounts requested = Ok (Selected c0))
  /\ (exists c, select_account accounts requested = Ok (Selected c)).
Proof.
  intros Hne Hreq. unfold select_account. rewrite Hreq.
  destruct accounts as [|c0 rest]; [congruence|].
  split; [|split].
  - intros l1 c l2 Heq Hl1 Hc. rewrite Heq.
    rewrite (next_or_none_first _ l1 c l2 Hl1 Hc).
    rewrite (is_default_truthy c Hc). reflexivity.
  - intros Hall. exists c0. split; [reflexivity|].
    rewrite (next_or_none_absent _ _ Hall). reflexivity.
  - destruct (next_or_none is_default (c0 :: rest)) as [c|] eqn:E.
    + rewrite (is_default_truthy c (next_or_none_holds _ _ _ E)). eauto.
    + eauto.
Qed.

Lemma C3_default_account_witness :
  select_account two_accounts VNone = Ok (Selected (account "b" true))
  /\ select_account [account "a" false; account "b" false] (VStr [])
     = Ok (Selected (account "a" false)).
Proof.
  split.
  - refine (proj1 (C3_default_account two_accounts VNone _ _)
              [account "a" false] (account "b" true) [] _ _ _).
    + discriminate.
    + reflexivity.
    + reflexivity.
    + repeat constructor.
    + vm_compute. reflexivity.
  - destruct (proj1 (proj2 (C3_default_account
                [account "a" false; account "b" false] (VStr []) ltac:(discriminate) eq_refl)))
      as (c0 & H0 & Hsel).
    + repeat constructor.
    + simpl in H0. injection H0 as <-. exact Hsel.
Defined.

(** ** The handler, stage by stage *)

Section Stages.
Context (lib : library).

Lemma compose_cases (sender smtp_user subject body mail_type encoding : value)
    (to_emails cc_emails : list str) (log : list event) :
  (exists e, compose lib sender smtp_user subject body mail_type encoding
               to_emails cc_emails log = (Raise e, log))
  \/ (exists m, compose lib sender smtp_user subject body mail_type encoding
                  to_emails cc_emails log = (Ok m, log)
                /\ headers m = expected_headers sender smtp_user subject encoding
                                 to_emails cc_emails).
Proof.
  unfold compose, expected_headers, new_MIMEText, set_header, bind, ret, raise.
  destruct (MIMEText_init lib body mail_type encoding); [eauto|].
  destruct (Header_init lib (VStr (str_of sender ++ _)) encoding); [eauto|].
  destruct (Header_init lib (VStr (join _ to_emails)) encoding); [eauto|].
  destruct (list_truthy cc_emails).
  - destruct (Header_init lib (VStr (join _ cc_emails)) encoding); [eauto|].
    destruct (Header_init lib subject encoding); [eauto|].
    right. eexists. split; reflexivity.
  - destruct (Header_init lib subject encoding); [eauto|].
    right. eexists. split; reflexivity.
Qed.

Lemma expected_headers_names (sender smtp_user subject encoding : value)
    (to_emails cc_emails : list str) :
  ~ In "Bcc" (map fst (expected_headers sender smtp_user subject encoding to_emails cc_emails)).
Proof.
  unfold expected_headers. destruct (list_truthy cc_emails); simpl;
    intros H; repeat (destruct H as [H|H]; [discriminate|]); exact H.
Qed.

(** The session of lines 76 to 78, outcome by outcome. *)
Lemma deliver_cases (f : smtp_fields) (m : MIMEText)
    (to_emails cc_emails bcc_emails : list str) :
  let connect := EvConnect (smtp_server f) (smtp_port f) in
  let login := EvLogin (smtp_user f) (smtp_password f) in
  let envelope := to_emails ++ cc_emails ++ bcc_emails in
  run (deliver lib f m to_emails cc_emails bcc_emails) =
  match smtp_connect lib (smtp_server f) (smtp_port f) with
  | Some e => (Raise e, [connect])
  | None =>
      match smtp_login lib (smtp_user f) (smtp_password f) with
      | Some e => release lib (Raise e) [connect; login]
      | None =>
          match as_string lib m with
          | Raise e => release lib (Raise e) [connect; login]
          | Ok raw =>
              let send := EvSendmail (smtp_user f) envelope raw in
              release lib
                (match smtp_sendmail lib (smtp_user f) envelope raw with
                 | Some e => Raise e
                 | None => Ok tt
                 end)
                [connect; login; send]
          end
      end
  end.
Proof.
  unfold run, deliver, with_SMTP_SSL, bind, call, lift. simpl.
  destruct (smtp_connect lib _ _); [reflexivity|].
  destruct (smtp_login lib _ _); [reflexivity|].
  destruct (as_string lib m); [|reflexivity].
  destruct (smtp_sendmail lib _ _ _); reflexivity.
Qed.

(** The [try] statement as a whole. *)
Lemma try_send_cases (target : dict) (subject body mail_type encoding : value)
    (to_emails cc_emails bcc_emails : list str) :
  run (try_except (send_block lib target subject body mail_type encoding
                     to_emails cc_emails bcc_emails) on_exception) =
  match extract lib target with
  | Raise e => (Ok (json_error e), [])
  | Ok f =>
      match compose lib (sender_name f) (smtp_user f) subject body mail_type encoding
              to_emails cc_emails [] with
      | (Raise e, _) => (Ok (json_error e), [])
      | (Ok m, _) =>
          match run (deliver lib f m to_emails cc_emails bcc_emails) with
          | (Raise e, trace) => (Ok (json_error e), trace)
          | (Ok _, trace) => (Ok json_success, trace)
          end
      end
  end.
Proof.
  unfold run, try_except, send_block, on_exception.
  unfold bind at 1. unfold lift at 1.
  destruct (extract lib target) as [f|e]; [|reflexivity].
  unfold bind at 1.
  destruct (compose_cases (sender_name f) (smtp_user f) subject body mail_type
              encoding to_emails cc_emails []) as [(e & ->)|(m & -> & _)]; [reflexivity|].
  unfold bind at 1.
  destruct (deliver lib f m to_emails cc_emails bcc_emails []) as [[[]|e] trace];
    reflexivity.
Qed.

Lemma invoke_try (credentials : credentials_t) (user_id : str) (tool_parameters : dict)
    (target : dict) (to_emails cc_emails bcc_emails : list str) :
  reaches_try credentials tool_parameters target to_emails cc_emails bcc_emails ->
  run (_invoke lib credentials user_id tool_parameters) =
  run (try_except
         (send_block lib target
            (get_or tool_parameters "subject" (VStr default_subject))
            (get_or tool_parameters "body" (VStr []))
            (get_or tool_parameters "mail_type" (VStr (u "html")))
            (get_or tool_parameters "encoding" (VStr (u "utf-8")))
            to_emails cc_emails bcc_emails) on_exception).
Proof.
  intros (Hne & Hsel & Hto & Hto_ne & Hcc & Hbcc).
  unfold run, _invoke.
  destruct (default [] (smtp_accounts credentials)) as [|c0 rest] eqn:E; [congruence|].
  simpl negb. cbv iota.
  unfold bind at 1. unfold lift at 1. rewrite Hsel.
  unfold bind at 1. unfold lift at 1. rewrite Hto.
  destruct to_emails as [|t ts]; [congruence|]. simpl negb. cbv iota.
  unfold bind at 1. unfold lift at 1. rewrite Hcc.
  unfold bind at 1. unfold lift at 1. rewrite Hbcc.
  reflexivity.
Qed.

(** Before the [try], nothing is handed to the transport: either the
    invocation ends with an empty log, or it reaches the [try]. *)
Lemma invoke_cases (credentials : credentials_t) (user_id : str) (tool_parameters : dict) :
  snd (run (_invoke lib credentials user_id tool_parameters)) = []
  \/ exists target to_emails cc_emails bcc_emails,
       reaches_try credentials tool_parameters target to_emails cc_emails bcc_emails.
Proof.
  unfold reaches_try, run, _invoke.
  destruct (default [] (smtp_accounts credentials)) as [|c0 rest] eqn:E; [left; reflexivity|].
  simpl negb. cbv iota.
  unfold bind at 1. unfold lift at 1.
  destruct (select_account (c0 :: rest) _) as [[target|text]|e] eqn:Hsel;
    [|left; reflexivity|left; reflexivity].
  unfold bind at 1. unfold lift at 1.
  destruct (recipients tool_parameters "to_emails") as [to_emails|e] eqn:Hto;
    [|left; reflexivity].
  destruct to_emails as [|t ts]; [left; reflexivity|]. simpl negb. cbv iota.
  unfold bind at 1. unfold lift at 1.
  destruct (recipients tool_parameters "cc_emails") as [cc_emails|e] eqn:Hcc;
    [|left; reflexivity].
  unfold bind at 1. unfold lift at 1.
  destruct (recipients tool_parameters "bcc_emails") as [bcc_emails|e] eqn:Hbcc;
    [|left; reflexivity].
  right. exists target, (t :: ts), cc_emails, bcc_emails.
  repeat split; try assumption; discriminate.
Qed.

End Stages.

(** ** The claims about the handler *)

(** C8. When the credential store holds no account list, or an empty one,
    the invocation ends at once with the plain text message of line 28,
    whatever the parameters are (they are not even parsed), and nothing is
    handed to the transport. *)
Theorem C8_no_accounts (lib : library) (user_id : str) (tool_parameters : dict) :
  run (_invoke lib {| smtp_accounts := None |} user_id tool_parameters)
  = (Ok (TextMessage msg_no_accounts), [])
  /\ run (_invoke lib {| smtp_accounts := Some [] |} user_id tool_parameters)
     = (Ok (TextMessage msg_no_accounts), []).
Proof. split; reflexivity. Qed.

(** C1, as the code has it. When [to_emails] parses to an empty list the
    handler returns a plain text message, not a JSON-like result, and
    nothing is handed to the transport; once an account has been chosen
    that text is the recipient-empty diagnostic of line 49. *)
Theorem C1_empty_recipients_text (lib : library) (credentials : credentials_t)
    (user_id : str) (tool_parameters : dict) :
  recipients tool_parameters "to_emails" = Ok [] ->
  (exists text, run (_invoke lib credentials user_id tool_parameters)
                = (Ok (TextMessage text), []))
  /\ (forall target,
        default [] (smtp_accounts credentials) <> [] ->
        select_account (default [] (smtp_accounts credentials))
          (get tool_parameters "sender_account") = Ok (Selected target) ->
        run (_invoke lib credentials user_id tool_parameters)
        = (Ok (TextMessage msg_empty_to), [])).
Proof.
  intros Hto. unfold run, _invoke.
  destruct (default [] (smtp_accounts credentials)) as [|c0 rest] eqn:E.
  - split; [eexists; reflexivity | congruence].
  - simpl negb. cbv iota. unfold bind at 1. unfold lift at 1.
    destruct (select_account_total (c0 :: rest)
                (get tool_parameters "sender_account")) as [choice Hc]; [discriminate|].
    rewrite Hc. destruct choice as [target|text].
    + unfold bind at 1. unfold lift at 1. rewrite Hto. simpl.
      split; [eexists; reflexivity | reflexivity].
    + split; [eexists; reflexivity | discriminate].
Qed.

Lemma C1_empty_recipients_text_witness :
  run (_invoke lib_ok {| smtp_accounts := Some two_accounts |} []
         (request [("to_emails", " , ")]))
  = (Ok (TextMessage msg_empty_to), []).
Proof.
  refine (proj2 (C1_empty_recipients_text lib_ok {| smtp_accounts := Some two_accounts |} []
                   (request [("to_emails", " , ")]) _) (account "b" true) _ _).
  - vm_compute. reflexivity.
  - discriminate.
  - vm_compute. reflexivity.
Defined.

(** C1 as stated fails: with one account configured and [to_emails] equal
    to [" , "], the recipient list parses to empty and the handler returns
    the text message of line 49; the result is no JSON-like object with a
    [status] field. *)
Lemma C1_counterexample :
  recipients (request [("to_emails", " , ")]) "to_emails" = Ok []
  /\ run (_invoke lib_ok {| smtp_accounts := Some [account "a" true] |} []
            (request [("to_emails", " , ")]))
     = (Ok (TextMessage (u "错误：收件人邮箱(to_emails)不能为空。")), [])
  /\ ~ (exists obj,
          fst (run (_invoke lib_ok {| smtp_accounts := Some [account "a" true] |} []
                      (request [("to_emails", " , ")])))
          = Ok (JsonMessage obj)).
Proof.
  split; [vm_compute; reflexivity|].
  split; [vm_compute; reflexivity|].
  intros [obj H]. vm_compute in H. discriminate.
Qed.

(** C4. Every message the handler hands to the transport was composed
    with the header fields [From], [To], [Cc] (only when there are Cc
    addresses) and [Subject], whose values are built from the sender, the
    To list, the Cc list and the subject: there is no [Bcc] field and the
    Bcc list enters no field.  The envelope recipients of that call are
    the To, Cc and Bcc lists concatenated in this order, as parsed. *)
Theorem C4_bcc_envelope_only (lib : library) (credentials : credentials_t)
    (user_id : str) (tool_parameters : dict)
    (from_addr : value) (rcpts : list str) (raw : str) :
  In (EvSendmail from_addr rcpts raw)
     (snd (run (_invoke lib credentials user_id tool_parameters))) ->
  exists to_emails cc_emails bcc_emails sender message,
    recipients tool_parameters "to_emails" = Ok to_emails
    /\ recipients tool_parameters "cc_emails" = Ok cc_emails
    /\ recipients tool_parameters "bcc_emails" = Ok bcc_emails
    /\ rcpts = to_emails ++ cc_emails ++ bcc_emails
    /\ compose lib sender from_addr
         (get_or tool_parameters "subject" (VStr default_subject))
         (get_or tool_parameters "body" (VStr []))
         (get_or tool_parameters "mail_type" (VStr (u "html")))
         (get_or tool_parameters "encoding" (VStr (u "utf-8")))
         to_emails cc_emails [] = (Ok message, [])
    /\ as_string lib message = Ok raw
    /\ headers message
       = expected_headers sender from_addr
           (get_or tool_parameters "subject" (VStr default_subject))
           (get_or tool_parameters "encoding" (VStr (u "utf-8")))
           to_emails cc_emails
    /\ ~ In "Bcc" (map fst (headers message)).
Proof.
  intros Hin.
  destruct (invoke_cases lib credentials user_id tool_parameters)
    as [Hnil | (target & to_emails & cc_emails & bcc_emails & Hreach)].
  { rewrite Hnil in Hin. destruct Hin. }
  rewrite (invoke_try lib _ _ _ _ _ _ _ Hreach), try_send_cases in Hin.
  destruct Hreach as (_ & _ & Hto & _ & Hcc & Hbcc).
  destruct (extract lib target) as [f|e]; [|destruct Hin].
  destruct (compose_cases lib (sender_name f) (smtp_user f)
              (get_or tool_parameters "subject" (VStr default_subject))
              (get_or tool_parameters "body" (VStr []))
              (get_or tool_parameters "mail_type" (VStr (u "html")))
              (get_or tool_parameters "encoding" (VStr (u "utf-8")))
              to_emails cc_emails []) as [(e & Hc)|(m & Hc & Hh)];
    rewrite Hc in Hin; [destruct Hin|].
  rewrite deliver_cases in Hin. cbv zeta in Hin.
  assert (Hgoal : from_addr = smtp_user f
                  /\ rcpts = to_emails ++ cc_emails ++ bcc_emails
                  /\ as_string lib m = Ok raw).
  { unfold release in Hin.
    destruct (smtp_connect lib _ _).
    { simpl in Hin. destruct Hin as [H|[]]. discriminate. }
    destruct (smtp_login lib _ _).
    { destruct (smtp_quit lib _); simpl in Hin;
        destruct Hin as [H|[H|[H|[]]]]; discriminate. }
    destruct (as_string lib m) as [raw'|e].
    2:{ destruct (smtp_quit lib _); simpl in Hin;
          destruct Hin as [H|[H|[H|[]]]]; discriminate. }
    destruct (smtp_sendmail lib _ _ _); destruct (smtp_quit lib _); simpl in Hin;
      destruct Hin as [H|[H|[H|[H|[]]]]]; try discriminate;
      injection H as <- <- <-; auto. }
  destruct Hgoal as (-> & -> & Hraw).
  exists to_emails, cc_emails, bcc_emails, (sender_name f), m.
  repeat split; try assumption.
  rewrite Hh. apply expected_headers_names.
Qed.

Lemma C4_bcc_envelope_only_witness :
  exists to_emails cc_emails bcc_emails sender message,
    recipients full_request "to_emails" = Ok to_emails
    /\ recipients full_request "cc_emails" = Ok cc_emails
    /\ recipients full_request "bcc_emails" = Ok bcc_emails
    /\ [u "t@x.com"; u "c@x.com"; u "b@x.com"] = to_emails ++ cc_emails ++ bcc_emails
    /\ compose lib_ok sender (VStr (u "bot@example.com"))
         (get_or full_request "subject" (VStr default_subject))
         (get_or full_request "body" (VStr []))
         (get_or full_request "mail_type" (VStr (u "html")))
         (get_or full_request "encoding" (VStr (u "utf-8")))
         to_emails cc_emails [] = (Ok message, [])
    /\ as_string lib_ok message = Ok (u "From; To; Cc; Subject")
    /\ headers message
       = expected_headers sender (VStr (u "bot@example.com"))
           (get_or full_request "subject" (VStr default_subject))
           (get_or full_request "encoding" (VStr (u "utf-8")))
           to_emails cc_emails
    /\ ~ In "Bcc" (map fst (headers message)).
Proof.
  apply (C4_bcc_envelope_only lib_ok {| smtp_accounts := Some two_accounts |} [] full_request).
  vm_compute. right. right. left. reflexivity.
Defined.



(** C5 as stated fails: on a transport whose login raises the
    authentication error and whose release then raises on a 421 reply to
    [QUIT], the [error_message] carries the text of the release failure
    after the prefix, not the text of the login failure. *)
Lemma C5_counterexample :
  smtp_login lib_quit_fails (VStr (u "bot@example.com")) (VStr (u "secret"))
  = Some auth_error
  /\ run (_invoke lib_quit_fails {| smtp_accounts := Some two_accounts |} [] plain_request)
     = (Ok (JsonMessage [("status", u "error");
                         ("error_message", u "邮件发送失败: (421, b'closing')")]),
        [EvConnect (VStr (u "smtp.example.com")) 465;
         EvLogin (VStr (u "bot@example.com")) (VStr (u "secret")); EvClose])
  /\ u "邮件发送失败: (421, b'closing')" <> u "邮件发送失败: " ++ exc_str auth_error.
Proof.
  split; [reflexivity|]. split; [vm_compute; reflexivity|].
  vm_compute. discriminate.
Qed.



(** C10. Once the account is chosen and the recipient parameters are
    parsed (To non-empty), a failure while reading the fields of the
    account record is answered with the JSON-like object of the transport
    failures: [status = error] and the send-failure prefix followed by the
    text of the exception.  Nothing is raised and nothing is handed to the
    transport.  A record that lacks one of the five keys, or whose port
    [int] rejects, fails in this way. *)
Theorem C10_extraction_failure (lib : library) (credentials : credentials_t)
    (user_id : str) (tool_parameters : dict) (target : dict)
    (to_emails cc_emails bcc_emails : list str) :
  reaches_try credentials tool_parameters target to_emails cc_emails bcc_emails ->
  (forall e, extract lib target = Raise e ->
     run (_invoke lib credentials user_id tool_parameters)
     = (Ok (JsonMessage [("status", u "error");
                         ("error_message", u "邮件发送失败: " ++ exc_str e)]), []))
  /\ ((exists key, In key ["server"; "port"; "user"; "password"; "sender_name"]
                   /\ target !! key = None)
      \/ (exists v e, target !! "port" = Some v /\ py_int lib v = Raise e) ->
      exists e, extract lib target = Raise e).
Proof.
  intros Hreach. split.
  - intros e He.
    rewrite (invoke_try lib _ _ _ _ _ _ _ Hreach), try_send_cases, He. reflexivity.
  - unfold extract, getitem.
    intros [(key & Hkey & Hnone) | (v & e & Hport & Hint)].
    + simpl in Hkey.
      destruct Hkey as [<-|[<-|[<-|[<-|[<-|[]]]]]]; rewrite Hnone;
        destruct (target !! "server"); eauto;
        destruct (target !! "port") as [port|]; eauto;
        destruct (py_int lib port); eauto;
        destruct (target !! "user"); eauto;
        destruct (target !! "password"); eauto;
        discriminate.
    + rewrite Hport, Hint. destruct (target !! "server"); eauto.
Qed.

Lemma C10_extraction_failure_witness :
  run (_invoke lib_ok {| smtp_accounts := Some [no_port_record] |} [] plain_request)
  = (Ok (JsonMessage [("status", u "error");
                      ("error_message", u "邮件发送失败: 'port'")]), []).
Proof.
  refine (proj1 (C10_extraction_failure lib_ok {| smtp_accounts := Some [no_port_record] |} []
                   plain_request no_port_record [u "t@x.com"] [] [] _)
            (Exc KeyError (u "'port'")) _).
  - unfold reaches_try. repeat split; try discriminate; vm_compute; reflexivity.
  - vm_compute. reflexivity.
Defined.

(** * Further properties of the recipient parsing *)

Lemma lstrip_all_space (p : str) : all_space p -> lstrip p = [].
Proof.
  induction 1 as [|c p Hc Hp IH]; simpl; [reflexivity|]. rewrite Hc. assumption.
Qed.

Lemma all_space_app (a b : str) : all_space a -> all_space b -> all_space (a ++ b).
Proof. unfold all_space. intros Ha Hb. apply Forall_app. split; assumption. Qed.

Lemma strip_nil_iff (p : str) : strip p = [] <-> all_space p.
Proof.
  split.
  - intros H. destruct (strip_split p) as (a & b & Hp & Ha & Hb).
    rewrite H in Hp. rewrite Hp. apply all_space_app; assumption.
  - intros H. unfold strip. rewrite lstrip_all_space by assumption. reflexivity.
Qed.

Lemma strip_nonempty_nil (pieces : list str) :
  strip_nonempty pieces = [] <-> Forall all_space pieces.
Proof.
  induction pieces as [|p l IH].
  - split; [constructor | reflexivity].
  - rewrite strip_nonempty_cons. destruct (strip p) as [|c r] eqn:E; simpl str_truthy.
    + rewrite IH. split.
      * intros H. constructor; [apply strip_nil_iff; assumption | assumption].
      * intros H. inversion H. assumption.
    + split; [discriminate|]. intros H. inversion H as [|? ? Hp Hl]; subst.
      apply strip_nil_iff in Hp. congruence.
Qed.

Lemma split_all_space (s : str) :
  Forall all_space (split comma s)
  <-> Forall (fun c => c = comma \/ isspace c = true) s.
Proof.
  induction s as [|c s IH]; simpl.
  - split; intros _; repeat constructor.
  - destruct (c =? comma) eqn:Hc.
    + apply N.eqb_eq in Hc. split.
      * intros H. inversion H as [|? ? _ Hl]; subst.
        constructor; [left; reflexivity | apply IH; assumption].
      * intros H. inversion H as [|? ? _ Hl]; subst.
        constructor; [constructor | apply IH; assumption].
    + apply N.eqb_neq in Hc.
      destruct (split comma s) as [|p ps] eqn:E.
      { exfalso. exact (split_not_nil comma s E). }
      split.
      * intros H. inversion H as [|? ? Hp Hl]; subst.
        inversion Hp as [|? ? Hsp Hrest]; subst.
        constructor; [right; assumption|].
        apply IH. constructor; assumption.
      * intros H. inversion H as [|? ? Hhd Hl]; subst.
        apply IH in Hl. inversion Hl as [|? ? Hp Hps]; subst.
        destruct Hhd as [Hhd|Hhd]; [contradiction|].
        constructor; [constructor; assumption | assumption].
Qed.

(** X1. Every address that comes out of the parsing is non-empty, holds
    no comma, and has no whitespace at either end. *)
Theorem parse_emails_clean (src : str) :
  Forall (fun e => e <> [] /\ ~ In comma e /\ no_lead e /\ no_trail e)
         (parse_emails src).
Proof.
  pose proof (strip_nonempty_elems comma _ (split_no_sep comma src)) as H.
  eapply Forall_impl; [exact H|].
  intros e [[He Hne] Hc]. repeat split; try assumption.
  - rewrite <- He. apply strip_no_lead.
  - rewrite <- He. apply strip_no_trail.
Qed.

(** X2. The parsed list is empty, so that line 48 rejects the request,
    exactly when the source string is made of commas and whitespace
    only (the empty string included). *)
Theorem parse_emails_empty_iff (src : str) :
  parse_emails src = [] <-> Forall (fun c => c = comma \/ isspace c = true) src.
Proof.
  unfold parse_emails. rewrite strip_nonempty_nil. apply split_all_space.
Qed.

Lemma split_app_sep (sep : N) (a b : str) :
  split sep (a ++ sep :: b) = split sep a ++ split sep b.
Proof.
  induction a as [|c a IH]; simpl.
  - rewrite N.eqb_refl. reflexivity.
  - destruct (c =? sep); [rewrite IH; reflexivity|].
    rewrite IH. destruct (split sep a) as [|p ps] eqn:E.
    + exfalso. exact (split_not_nil sep a E).
    + reflexivity.
Qed.

Lemma strip_nonempty_app (l1 l2 : list str) :
  strip_nonempty (l1 ++ l2) = strip_nonempty l1 ++ strip_nonempty l2.
Proof.
  induction l1 as [|p l1 IH]; [reflexivity|].
  rewrite <- app_comm_cons, !strip_nonempty_cons, IH.
  destruct (str_truthy (strip p)); reflexivity.
Qed.

(** X3. Parsing distributes over a comma: the addresses of [a,b] are the
    addresses of [a] followed by those of [b]. *)
Theorem parse_emails_comma (a b : str) :
  parse_emails (a ++ comma :: b) = parse_emails a ++ parse_emails b.
Proof. unfold parse_emails. rewrite split_app_sep. apply strip_nonempty_app. Qed.

Lemma strip_skip_space (c : N) (p : str) : isspace c = true -> strip (c :: p) = strip p.
Proof. intros Hc. unfold strip. simpl. rewrite Hc. reflexivity. Qed.

Lemma parse_emails_skip_space (c : N) (s : str) :
  isspace c = true -> c <> comma -> parse_emails (c :: s) = parse_emails s.
Proof.
  intros Hsp Hc. unfold parse_emails. simpl.
  apply N.eqb_neq in Hc. rewrite Hc.
  destruct (split comma s) as [|p ps] eqn:E.
  - exfalso. exact (split_not_nil comma s E).
  - rewrite !strip_nonempty_cons, strip_skip_space by assumption. reflexivity.
Qed.

Lemma parse_header_of_clean (l : list str) :
  Forall (fun e => (strip e = e /\ e <> []) /\ ~ In comma e) l ->
  parse_emails (join (u ", ") l) = l.
Proof.
  induction 1 as [|x l [[Hx Hne] Hc] Hl IH]; [reflexivity|].
  destruct l as [|y l].
  - simpl. unfold parse_emails. rewrite split_one by assumption.
    apply strip_nonempty_fixed. repeat constructor; assumption.
  - rewrite join_cons.
    change (x ++ u ", " ++ join (u ", ") (y :: l))
      with (x ++ comma :: 32 :: join (u ", ") (y :: l)).
    rewrite parse_emails_comma.
    rewrite parse_emails_skip_space by (reflexivity || discriminate).
    rewrite IH. unfold parse_emails. rewrite split_one by assumption.
    rewrite strip_nonempty_fixed by (repeat constructor; assumption).
    reflexivity.
Qed.

(** X4. The value written into the [To] and [Cc] header fields, the parsed
    list joined with a comma and a space, parses back to that list. *)
Theorem parse_emails_header_roundtrip (src : str) :
  parse_emails (join (u ", ") (parse_emails src)) = parse_emails src.
Proof.
  apply parse_header_of_clean.
  exact (strip_nonempty_elems comma _ (split_no_sep comma src)).
Qed.

(** * Further properties of the handler *)

Lemma next_or_none_Some_inv {A} (p : A -> bool) (l : list A) (c : A) :
  next_or_none p l = Some c ->
  exists l1 l2, l = l1 ++ c :: l2 /\ Forall (fun x => p x = false) l1 /\ p c = true.
Proof.
  induction l as [|x l IH]; simpl; [discriminate|].
  destruct (p x) eqn:Hx.
  - intros [= <-]. exists [], l. repeat split; [constructor | assumption].
  - intros H. destruct (IH H) as (l1 & l2 & -> & Hl1 & Hc).
    exists (x :: l1), l2. repeat split; [constructor; assumption | assumption].
Qed.

Lemma next_or_none_None_inv {A} (p : A -> bool) (l : list A) :
  next_or_none p l = None -> Forall (fun x => p x = false) l.
Proof.
  induction l as [|x l IH]; simpl; [constructor|].
  destruct (p x) eqn:Hx; [discriminate|]. intros H. constructor; auto.
Qed.

(** X5. Whatever [select_account] chooses is one of the configured
    records, and it is the first one that qualifies: with a requested
    name, the first record bearing it; without, the first record flagged
    as default, or the head of the list when no record is flagged. *)
Theorem select_account_sound (accounts : list dict) (requested : value) (c : dict) :
  select_account accounts requested = Ok (Selected c) ->
  In c accounts
  /\ (exists l1 l2, accounts = l1 ++ c :: l2
        /\ if truthy requested
           then has_name requested c = true
                /\ Forall (fun x => has_name requested x = false) l1
           else (is_default c = true /\ Forall (fun x => is_default x = false) l1)
                \/ (l1 = [] /\ Forall (fun x => is_default x = false) accounts)).
Proof.
  unfold select_account. destruct (truthy requested) eqn:Ht.
  - destruct (next_or_none (has_name requested) accounts) as [t|] eqn:E; [|discriminate].
    destruct (dict_truthy t); [|discriminate]. intros [= <-].
    destruct (next_or_none_Some_inv _ _ _ E) as (l1 & l2 & -> & Hl1 & Hc).
    split; [apply in_or_app; right; left; reflexivity|].
    exists l1, l2. auto.
  - destruct (next_or_none is_default accounts) as [t|] eqn:E.
    + rewrite (is_default_truthy t (next_or_none_holds _ _ _ E)). intros [= <-].
      destruct (next_or_none_Some_inv _ _ _ E) as (l1 & l2 & -> & Hl1 & Hc).
      split; [apply in_or_app; right; left; reflexivity|].
      exists l1, l2. auto.
    + destruct accounts as [|c0 rest]; [discriminate|]. intros [= <-].
      split; [left; reflexivity|].
      exists [], rest. split; [reflexivity|]. right. split; [reflexivity|].
      apply next_or_none_None_inv. assumption.
Qed.

Lemma select_account_sound_witness :
  In (account "b" true) two_accounts
  /\ (exists l1 l2, two_accounts = l1 ++ account "b" true :: l2
        /\ if truthy VNone
           then has_name VNone (account "b" true) = true
                /\ Forall (fun x => has_name VNone x = false) l1
           else (is_default (account "b" true) = true
                 /\ Forall (fun x => is_default x = false) l1)
                \/ (l1 = [] /\ Forall (fun x => is_default x = false) two_accounts)).
Proof.
  apply (select_account_sound two_accounts VNone (account "b" true)).
  vm_compute. reflexivity.
Defined.

(** X6. The account choice ends in the not-found message exactly when a
    name was requested and no configured record bears it; a request
    without a name is never rejected. *)
Theorem select_account_rejected_iff (accounts : list dict) (requested : value) (text : str) :
  select_account accounts requested = Ok (Rejected text)
  <-> truthy requested = true
      /\ Forall (fun c => has_name requested c = false) accounts
      /\ text = msg_not_found requested.
Proof.
  unfold select_account. split.
  - destruct (truthy requested) eqn:Ht.
    + destruct (next_or_none (has_name requested) accounts) as [t|] eqn:E.
      * rewrite (has_name_truthy requested t Ht (next_or_none_holds _ _ _ E)).
        discriminate.
      * intros [= <-]. repeat split. apply next_or_none_None_inv. assumption.
    + destruct (next_or_none is_default accounts) as [t|] eqn:E.
      * destruct (dict_truthy t); [discriminate|].
        destruct accounts; discriminate.
      * destruct accounts; discriminate.
  - intros (-> & Hall & ->). rewrite (next_or_none_absent _ _ Hall). reflexivity.
Qed.

(** The recipient parameters *)

Lemma recipients_Raise (tool_parameters : dict) (key : string) (e : exception) :
  recipients tool_parameters key = Raise e ->
  exists v, tool_parameters !! key = Some v /\ is_str v = false /\ e = no_split_error v.
Proof.
  unfold recipients, get_or.
  destruct (tool_parameters !! key) as [v|]; simpl; [|discriminate].
  destruct v; simpl; try discriminate; intros [= <-]; eexists; repeat split.
Qed.

Lemma recipients_not_str (tool_parameters : dict) (key : string) (v : value) :
  tool_parameters !! key = Some v -> is_str v = false ->
  recipients tool_parameters key = Raise (no_split_error v).
Proof.
  unfold recipients, get_or. intros -> Hv.
  destruct v; simpl in *; try reflexivity. discriminate.
Qed.

Section Escapes.
Context (lib : library).

Lemma try_send_returns (target : dict) (subject body mail_type encoding : value)
    (to_emails cc_emails bcc_emails : list str) :
  exists obj, fst (run (try_except (send_block lib target subject body mail_type encoding
                                      to_emails cc_emails bcc_emails) on_exception))
              = Ok (JsonMessage obj).
Proof.
  rewrite try_send_cases.
  destruct (extract lib target) as [f|e]; [|eexists; reflexivity].
  destruct (compose lib _ _ _ _ _ _ _ _ []) as [[m|e] log]; [|eexists; reflexivity].
  destruct (run (deliver lib f m to_emails cc_emails bcc_emails)) as [[[]|e] trace];
    eexists; reflexivity.
Qed.

(** X7. The only exception that can leave [_invoke] is the
    [AttributeError] of [.split] on a recipient parameter that is present
    and is not a [str]; it leaves before anything is handed to the
    transport.  Hence a request whose [to_emails], [cc_emails] and
    [bcc_emails] are strings or absent always gets a message back. *)
Theorem invoke_raises_only_on_split (credentials : credentials_t) (user_id : str)
    (tool_parameters : dict) (e : exception) :
  fst (run (_invoke lib credentials user_id tool_parameters)) = Raise e ->
  snd (run (_invoke lib credentials user_id tool_parameters)) = []
  /\ exists key v,
       In key ["to_emails"; "cc_emails"; "bcc_emails"]
       /\ tool_parameters !! key = Some v
       /\ is_str v = false
       /\ e = no_split_error v.
Proof.
  unfold run, _invoke.
  destruct (default [] (smtp_accounts credentials)) as [|c0 rest] eqn:E; [discriminate|].
  simpl negb. cbv iota. unfold bind at 1 3. unfold lift at 1 5.
  destruct (select_account_total (c0 :: rest) (get tool_parameters "sender_account"))
    as [choice ->]; [discriminate|].
  destruct choice as [target|text]; [|discriminate].
  unfold bind at 1 3. unfold lift at 1 4.
  destruct (recipients tool_parameters "to_emails") as [to_emails|e1] eqn:Hto.
  2:{ simpl. intros [= ->]. split; [reflexivity|].
      destruct (recipients_Raise _ _ _ Hto) as (v & Hv & Hs & He).
      exists "to_emails", v. simpl. auto. }
  destruct to_emails as [|t ts]; [discriminate|]. simpl negb. cbv iota.
  unfold bind at 1 3. unfold lift at 1 3.
  destruct (recipients tool_parameters "cc_emails") as [cc_emails|e1] eqn:Hcc.
  2:{ simpl. intros [= ->]. split; [reflexivity|].
      destruct (recipients_Raise _ _ _ Hcc) as (v & Hv & Hs & He).
      exists "cc_emails", v. simpl. auto. }
  unfold bind at 1 2. unfold lift at 1 2.
  destruct (recipients tool_parameters "bcc_emails") as [bcc_emails|e1] eqn:Hbcc.
  2:{ simpl. intros [= ->]. split; [reflexivity|].
      destruct (recipients_Raise _ _ _ Hbcc) as (v & Hv & Hs & He).
      exists "bcc_emails", v. simpl. auto 6. }
  intros H. exfalso.
  destruct (try_send_returns target
              (get_or tool_parameters "subject" (VStr default_subject))
              (get_or tool_parameters "body" (VStr []))
              (get_or tool_parameters "mail_type" (VStr (u "html")))
              (get_or tool_parameters "encoding" (VStr (u "utf-8")))
              (t :: ts) cc_emails bcc_emails) as [obj Hobj].
  unfold run in Hobj. cbv beta iota delta [negb list_truthy] in H.
  rewrite Hobj in H. discriminate.
Qed.

(** X8. Once an account is chosen, a recipient parameter that is present
    but is no [str] (a [None], say) makes the handler raise: [to_emails]
    at line 47; [cc_emails] at line 55 and [bcc_emails] at line 56, after
    a non-empty To list was parsed.  Nothing is handed to the transport. *)
Theorem invoke_raises_on_non_str (credentials : credentials_t) (user_id : str)
    (tool_parameters : dict) (target : dict) (v : value) :
  default [] (smtp_accounts credentials) <> [] ->
  select_account (default [] (smtp_accounts credentials))
    (get tool_parameters "sender_account") = Ok (Selected target) ->
  is_str v = false ->
  let raised := run (_invoke lib credentials user_id tool_parameters)
                = (Raise (no_split_error v), []) in
  (tool_parameters !! "to_emails" = Some v -> raised)
  /\ (forall to_emails,
        recipients tool_parameters "to_emails" = Ok to_emails -> to_emails <> [] ->
        (tool_parameters !! "cc_emails" = Some v -> raised)
        /\ (forall cc_emails,
              recipients tool_parameters "cc_emails" = Ok cc_emails ->
              tool_parameters !! "bcc_emails" = Some v -> raised)).
Proof.
  intros Hne Hsel Hv. cbv zeta. unfold run, _invoke.
  destruct (default [] (smtp_accounts credentials)) as [|c0 rest] eqn:E; [congruence|].
  simpl negb. cbv iota. unfold bind at 1. unfold lift at 1. rewrite Hsel.
  unfold bind at 1. unfold lift at 1.
  split.
  - intros Hto. rewrite (recipients_not_str _ _ _ Hto Hv). reflexivity.
  - intros to_emails Hto Hto_ne. rewrite Hto.
    destruct to_emails as [|t ts]; [congruence|]. simpl negb. cbv iota.
    unfold bind at 1. unfold lift at 1.
    split.
    + intros Hcc. rewrite (recipients_not_str _ _ _ Hcc Hv). reflexivity.
    + intros cc_emails Hcc Hbcc. rewrite Hcc.
      unfold bind at 1. unfold lift at 1.
      rewrite (recipients_not_str _ _ _ Hbcc Hv). reflexivity.
Qed.

End Escapes.

Lemma invoke_raises_only_on_split_witness :
  snd (run (_invoke lib_ok {| smtp_accounts := Some two_accounts |} [] none_cc_request)) = []
  /\ exists key v,
       In key ["to_emails"; "cc_emails"; "bcc_emails"]
       /\ none_cc_request !! key = Some v
       /\ is_str v = false
       /\ no_split_error VNone = no_split_error v.
Proof.
  apply (invoke_raises_only_on_split lib_ok {| smtp_accounts := Some two_accounts |} []
           none_cc_request (no_split_error VNone)).
  vm_compute. reflexivity.
Defined.

Lemma invoke_raises_on_non_str_witness :
  run (_invoke lib_ok {| smtp_accounts := Some two_accounts |} [] none_cc_request)
  = (Raise (Exc AttributeError (u "'NoneType' object has no attribute 'split'")), []).
Proof.
  refine (proj1 (proj2 (invoke_raises_on_non_str lib_ok
                          {| smtp_accounts := Some two_accounts |} [] none_cc_request
                          (account "b" true) VNone _ _ _) [u "t@x.com"] _ _) _).
  - discriminate.
  - vm_compute. reflexivity.
  - reflexivity.
  - vm_compute. reflexivity.
  - discriminate.
  - vm_compute. reflexivity.
Defined.

(** * The session and the chosen account *)

Section Session.
Context (lib : library).

Lemma extract_Ok_inv (target : dict) (f : smtp_fields) :
  extract lib target = Ok f ->
  target !! "server" = Some (smtp_server f)
  /\ (exists pv, target !! "port" = Some pv /\ py_int lib pv = Ok (smtp_port f))
  /\ target !! "user" = Some (smtp_user f)
  /\ target !! "password" = Some (smtp_password f)
  /\ target !! "sender_name" = Some (sender_name f).
Proof.
  unfold extract, getitem.
  destruct (target !! "server") as [s|]; [|discriminate].
  destruct (target !! "port") as [pv|]; [|discriminate].
  destruct (py_int lib pv) as [p|] eqn:Hp; [|discriminate].
  destruct (target !! "user") as [us|]; [|discriminate].
  destruct (target !! "password") as [pw|]; [|discriminate].
  destruct (target !! "sender_name") as [sn|]; [|discriminate].
  intros [= <-]. simpl. repeat split. exists pv. split; [reflexivity | assumption].
Qed.

Lemma compose_fields (sender smtp_user subject body mail_type encoding : value)
    (to_emails cc_emails : list str) (log log' : list event) (m : MIMEText) :
  compose lib sender smtp_user subject body mail_type encoding to_emails cc_emails log
  = (Ok m, log') ->
  _text m = body /\ _subtype m = mail_type /\ _charset m = encoding.
Proof.
  unfold compose, new_MIMEText, set_header, bind, ret, raise.
  destruct (MIMEText_init lib body mail_type encoding); [discriminate|].
  destruct (Header_init lib (VStr (str_of sender ++ _)) encoding); [discriminate|].
  destruct (Header_init lib (VStr (join _ to_emails)) encoding); [discriminate|].
  destruct (list_truthy cc_emails).
  - destruct (Header_init lib (VStr (join _ cc_emails)) encoding); [discriminate|].
    destruct (Header_init lib subject encoding); [discriminate|].
    intros [= <- _]. repeat split.
  - destruct (Header_init lib subject encoding); [discriminate|].
    intros [= <- _]. repeat split.
Qed.

Lemma json_error_not_success (e : exception) : json_error e <> json_success.
Proof.
  unfold json_error, json_success, create_json_message.
  intros H.
  apply (f_equal (fun msg => match msg with
                             | JsonMessage ((_, s) :: _) => s
                             | _ => []
                             end)) in H.
  vm_compute in H. discriminate.
Qed.

(** An invocation ends before the [try] with a text message or an
    escaping exception and an empty log, or it reaches the [try]. *)
Lemma invoke_before_try (credentials : credentials_t) (user_id : str) (tool_parameters : dict) :
  (exists text, run (_invoke lib credentials user_id tool_parameters)
                = (Ok (TextMessage text), []))
  \/ (exists e, run (_invoke lib credentials user_id tool_parameters) = (Raise e, []))
  \/ (exists target to_emails cc_emails bcc_emails,
        reaches_try credentials tool_parameters target to_emails cc_emails bcc_emails).
Proof.
  unfold reaches_try, run, _invoke.
  destruct (default [] (smtp_accounts credentials)) as [|c0 rest] eqn:E;
    [left; eexists; reflexivity|].
  simpl negb. cbv iota.
  unfold bind at 1 2. unfold lift at 1 4.
  destruct (select_account (c0 :: rest) _) as [[target|text]|e] eqn:Hsel;
    [|left; eexists; reflexivity|right; left; eexists; reflexivity].
  unfold bind at 1 2. unfold lift at 1 3.
  destruct (recipients tool_parameters "to_emails") as [to_emails|e] eqn:Hto;
    [|right; left; eexists; reflexivity].
  destruct to_emails as [|t ts]; [left; eexists; reflexivity|]. simpl negb. cbv iota.
  unfold bind at 1 2. unfold lift at 1 2.
  destruct (recipients tool_parameters "cc_emails") as [cc_emails|e] eqn:Hcc;
    [|right; left; eexists; reflexivity].
  unfold bind at 1 2. unfold lift at 1 2.
  destruct (recipients tool_parameters "bcc_emails") as [bcc_emails|e] eqn:Hbcc;
    [|right; left; eexists; reflexivity].
  right. right. exists target, (t :: ts), cc_emails, bcc_emails.
  repeat split; try assumption; discriminate.
Qed.

(** The whole of an invocation that reaches the [try]. *)
Lemma invoke_outcome (credentials : credentials_t) (user_id : str) (tool_parameters : dict)
    (target : dict) (to_emails cc_emails bcc_emails : list str) :
  reaches_try credentials tool_parameters target to_emails cc_emails bcc_emails ->
  run (_invoke lib credentials user_id tool_parameters) =
  match extract lib target with
  | Raise e => (Ok (json_error e), [])
  | Ok f =>
      match compose lib (sender_name f) (smtp_user f)
              (get_or tool_parameters "subject" (VStr default_subject))
              (get_or tool_parameters "body" (VStr []))
              (get_or tool_parameters "mail_type" (VStr (u "html")))
              (get_or tool_parameters "encoding" (VStr (u "utf-8")))
              to_emails cc_emails [] with
      | (Raise e, _) => (Ok (json_error e), [])
      | (Ok m, _) =>
          let connect := EvConnect (smtp_server f) (smtp_port f) in
          let login := EvLogin (smtp_user f) (smtp_password f) in
          let envelope := to_emails ++ cc_emails ++ bcc_emails in
          let finish (r : result unit) (log : list event) :=
            (match smtp_quit lib log, r with
             | Some q, _ => Ok (json_error q)
             | None, Raise e => Ok (json_error e)
             | None, Ok _ => Ok json_success
             end, log ++ [EvClose]) in
          match smtp_connect lib (smtp_server f) (smtp_port f) with
          | Some e => (Ok (json_error e), [connect])
          | None =>
              match smtp_login lib (smtp_user f) (smtp_password f) with
              | Some e => finish (Raise e) [connect; login]
              | None =>
                  match as_string lib m with
                  | Raise e => finish (Raise e) [connect; login]
                  | Ok raw =>
                      let send := EvSendmail (smtp_user f) envelope raw in
                      finish (match smtp_sendmail lib (smtp_user f) envelope raw with
                              | Some e => Raise e
                              | None => Ok tt
                              end)
                             [connect; login; send]
                  end
              end
          end
      end
  end.
Proof.
  intros Hreach.
  rewrite (invoke_try lib _ _ _ _ _ _ _ Hreach), try_send_cases.
  destruct (extract lib target) as [f|e]; [|reflexivity].
  destruct (compose lib _ _ _ _ _ _ _ _ []) as [[m|e] log]; [|reflexivity].
  rewrite deliver_cases. cbv zeta. unfold release.
  destruct (smtp_connect lib _ _); [reflexivity|].
  destruct (smtp_login lib _ _); [destruct (smtp_quit lib _); reflexivity|].
  destruct (as_string lib m); [|destruct (smtp_quit lib _); reflexivity].
  destruct (smtp_sendmail lib _ _ _); destruct (smtp_quit lib _); reflexivity.
Qed.

(** X9. Every call an invocation makes to the transport uses the fields
    of the account that was chosen: the connection goes to its [server]
    and the integer of its [port], the login uses its [user] and
    [password], and the envelope sender is its [user]. *)
Theorem transport_uses_selected_account (credentials : credentials_t) (user_id : str)
    (tool_parameters : dict) (target : dict) (to_emails cc_emails bcc_emails : list str)
    (ev : event) :
  reaches_try credentials tool_parameters target to_emails cc_emails bcc_emails ->
  In ev (snd (run (_invoke lib credentials user_id tool_parameters))) ->
  match ev with
  | EvConnect server port =>
      target !! "server" = Some server
      /\ exists pv, target !! "port" = Some pv /\ py_int lib pv = Ok port
  | EvLogin user password =>
      target !! "user" = Some user /\ target !! "password" = Some password
  | EvSendmail from_addr rcpts _ =>
      target !! "user" = Some from_addr /\ rcpts = to_emails ++ cc_emails ++ bcc_emails
  | EvClose => True
  end.
Proof.
  intros Hreach. rewrite (invoke_outcome _ _ _ _ _ _ _ Hreach).
  destruct (extract lib target) as [f|e] eqn:Hf; [|intros []].
  destruct (extract_Ok_inv _ _ Hf) as (Hs & Hp & Hu & Hpw & _).
  destruct (compose lib _ _ _ _ _ _ _ _ []) as [[m|e] log]; [|intros []].
  cbv zeta.
  destruct (smtp_connect lib _ _); [|destruct (smtp_login lib _ _);
    [|destruct (as_string lib m); [destruct (smtp_sendmail lib _ _ _)|]]];
    simpl; intros H;
    repeat (destruct H as [<-|H]; [auto|]); destruct H.
Qed.

(** X10. The handler answers [status = success] only when the message was
    really submitted: the log is then connect, login, sendmail, release,
    and none of the three operations raised. *)
Theorem success_means_sent (credentials : credentials_t) (user_id : str)
    (tool_parameters : dict) :
  fst (run (_invoke lib credentials user_id tool_parameters))
  = Ok (JsonMessage [("status", u "success"); ("error_message", [])]) ->
  exists server port user password rcpts raw,
    snd (run (_invoke lib credentials user_id tool_parameters))
    = [EvConnect server port; EvLogin user password;
       EvSendmail user rcpts raw; EvClose]
    /\ smtp_connect lib server port = None
    /\ smtp_login lib user password = None
    /\ smtp_sendmail lib user rcpts raw = None.
Proof.
  destruct (invoke_before_try credentials user_id tool_parameters)
    as [(text & ->) | [(e & ->) | (target & to_emails & cc_emails & bcc_emails & Hreach)]];
    [discriminate | discriminate |].
  rewrite (invoke_outcome _ _ _ _ _ _ _ Hreach).
  change (JsonMessage [("status", u "success"); ("error_message", [])]) with json_success.
  assert (Hne : forall e trace,
             fst (Ok (json_error e), trace : list event) = Ok json_success -> False).
  { intros e trace H. apply (json_error_not_success e).
    exact (f_equal (fun r => match r with Ok msg => msg | Raise _ => json_success end) H). }
  destruct (extract lib target) as [f|e]; [|intros H; destruct (Hne _ _ H)].
  destruct (compose lib _ _ _ _ _ _ _ _ []) as [[m|e] log];
    [|intros H; destruct (Hne _ _ H)].
  cbv zeta.
  destruct (smtp_connect lib _ _) eqn:Hc; [intros H; destruct (Hne _ _ H)|].
  destruct (smtp_login lib _ _) eqn:Hl.
  { destruct (smtp_quit lib _); intros H; destruct (Hne _ _ H). }
  destruct (as_string lib m) as [raw|e].
  2:{ destruct (smtp_quit lib _); intros H; destruct (Hne _ _ H). }
  destruct (smtp_sendmail lib _ _ _) eqn:Hs.
  { destruct (smtp_quit lib _); intros H; destruct (Hne _ _ H). }
  destruct (smtp_quit lib _); [intros H; destruct (Hne _ _ H)|].
  intros _. do 6 eexists. split; [reflexivity|]. auto.
Qed.


Lemma test_connection_cases (credentials : dict) :
  let server := get credentials "server" in
  let user := get credentials "user" in
  let password := get credentials "password" in
  let error e := Ok [("status", u "error"); ("message", exc_str e)] in
  run (test_connection lib credentials) =
  match py_int lib (get credentials "port") with
  | Raise e => (error e, [])
  | Ok port =>
      let connect := EvConnect server port in
      let login := EvLogin user password in
      match smtp_connect lib server port with
      | Some e => (error e, [connect])
      | None =>
          match smtp_quit lib [connect; login], smtp_login lib user password with
          | Some q, _ => (error q, [connect; login; EvClose])
          | None, Some e => (error e, [connect; login; EvClose])
          | None, None => (Ok [("status", u "success")], [connect; login; EvClose])
          end
      end
  end.
Proof.
  unfold run, test_connection, try_except, with_SMTP_SSL, release, bind, lift, call, ret.
  simpl.
  destruct (py_int lib (get credentials "port")) as [port|e]; [|reflexivity].
  destruct (smtp_connect lib _ port); [reflexivity|].
  destruct (smtp_login lib _ _); destruct (smtp_quit lib _); reflexivity.
Qed.

(** X12. Neither function leaks a session: in the log of every invocation
    and of every connection test, a connect that raised is the last call,
    and a connect that returned is followed by logins and submissions
    only and then by exactly one release, whether the body raised or
    not. *)
Theorem session_always_released (credentials : credentials_t) (user_id : str)
    (tool_parameters : dict) (record : dict) :
  session_log lib (snd (run (_invoke lib credentials user_id tool_parameters)))
  /\ session_log lib (snd (run (test_connection lib record))).
Proof.
  unfold session_log. split.
  - destruct (invoke_before_try credentials user_id tool_parameters)
      as [(text & ->) | [(e & ->) | (target & to_emails & cc_emails & bcc_emails & Hreach)]];
      [left; reflexivity | left; reflexivity |].
    rewrite (invoke_outcome _ _ _ _ _ _ _ Hreach).
    destruct (extract lib target) as [f|e]; [|left; reflexivity].
    destruct (compose lib _ _ _ _ _ _ _ _ []) as [[m|e] log]; [|left; reflexivity].
    cbv zeta.
    destruct (smtp_connect lib _ _) eqn:Hc.
    { right. left. do 3 eexists. split; [reflexivity | eassumption]. }
    right. right.
    destruct (smtp_login lib _ _).
    { exists (smtp_server f), (smtp_port f), [EvLogin (smtp_user f) (smtp_password f)].
      repeat split; [assumption | repeat constructor]. }
    destruct (as_string lib m) as [raw|e].
    2:{ exists (smtp_server f), (smtp_port f), [EvLogin (smtp_user f) (smtp_password f)].
        repeat split; [assumption | repeat constructor]. }
    exists (smtp_server f), (smtp_port f),
           [EvLogin (smtp_user f) (smtp_password f);
            EvSendmail (smtp_user f) (to_emails ++ cc_emails ++ bcc_emails) raw].
    repeat split; try assumption; repeat constructor.
  - rewrite test_connection_cases. cbv zeta.
    destruct (py_int lib _) as [port|e]; [|left; reflexivity].
    destruct (smtp_connect lib _ _) eqn:Hc.
    { right. left. do 3 eexists. split; [reflexivity | eassumption]. }
    right. right.
    exists (get record "server"), port,
           [EvLogin (get record "user") (get record "password")].
    destruct (smtp_quit lib _); [|destruct (smtp_login lib _ _)];
      repeat split; try assumption; repeat constructor.
Qed.

End Session.

Lemma transport_uses_selected_account_witness :
  account "b" true !! "server" = Some (VStr (u "smtp.example.com"))
  /\ exists pv, account "b" true !! "port" = Some pv /\ py_int lib_ok pv = Ok 465%Z.
Proof.
  apply (transport_uses_selected_account lib_ok {| smtp_accounts := Some two_accounts |} []
           plain_request (account "b" true) [u "t@x.com"] [] []
           (EvConnect (VStr (u "smtp.example.com")) 465)).
  - unfold reaches_try. repeat split; try discriminate; vm_compute; reflexivity.
  - vm_compute. left. reflexivity.
Defined.

Lemma success_means_sent_witness :
  exists server port user password rcpts raw,
    snd (run (_invoke lib_ok {| smtp_accounts := Some two_accounts |} [] full_request))
    = [EvConnect server port; EvLogin user password;
       EvSendmail user rcpts raw; EvClose]
    /\ smtp_connect lib_ok server port = None
    /\ smtp_login lib_ok user password = None
    /\ smtp_sendmail lib_ok user rcpts raw = None.
Proof.
  apply (success_means_sent lib_ok {| smtp_accounts := Some two_accounts |} [] full_request).
  vm_compute. reflexivity.
Defined.


Section Agreement.
Context (lib : library).

(** X13. The connection test reads the entries [server], [port], [user]
    and [password] of the record and nothing else: adding, changing or
    removing any other entry changes neither its answer nor the calls it
    makes. *)
Theorem test_connection_reads_four_keys (record : dict) (key : string) (v : value) :
  ~ In key ["server"; "port"; "user"; "password"] ->
  run (test_connection lib (<[key := v]> record)) = run (test_connection lib record)
  /\ run (test_connection lib (delete key record)) = run (test_connection lib record).
Proof.
  intros Hkey.
  assert (Hs : key <> "server") by (intros ->; apply Hkey; simpl; auto).
  assert (Hp : key <> "port") by (intros ->; apply Hkey; simpl; auto).
  assert (Hu : key <> "user") by (intros ->; apply Hkey; simpl; auto).
  assert (Hw : key <> "password") by (intros ->; apply Hkey; simpl; auto).
  rewrite !test_connection_cases. unfold get.
  rewrite !lookup_insert_ne, !lookup_delete_ne by assumption.
  split; reflexivity.
Qed.

(** X15. When the request gives no [subject], [body], [mail_type] or
    [encoding], the message handed to the transport has an empty text,
    the subtype [html], the charset [utf-8], and the subject of line 51
    in its [Subject] field. *)
Theorem message_defaults (credentials : credentials_t) (user_id : str)
    (tool_parameters : dict) (from_addr : value) (rcpts : list str) (raw : str) :
  tool_parameters !! "subject" = None ->
  tool_parameters !! "body" = None ->
  tool_parameters !! "mail_type" = None ->
  tool_parameters !! "encoding" = None ->
  In (EvSendmail from_addr rcpts raw)
     (snd (run (_invoke lib credentials user_id tool_parameters))) ->
  exists message,
    as_string lib message = Ok raw
    /\ _text message = VStr []
    /\ _subtype message = VStr (u "html")
    /\ _charset message = VStr (u "utf-8")
    /\ In ("Subject", {| h_value := VStr (u "来自 Dify 的邮件通知");
                         h_charset := VStr (u "utf-8") |})
          (headers message).
Proof.
  intros Hsub Hbody Htype Henc.
  destruct (invoke_before_try lib credentials user_id tool_parameters)
    as [(text & ->) | [(e & ->) | (target & to_emails & cc_emails & bcc_emails & Hreach)]];
    [intros [] | intros [] |].
  rewrite (invoke_outcome lib _ _ _ _ _ _ _ Hreach).
  unfold get_or. rewrite Hsub, Hbody, Htype, Henc. simpl default.
  destruct (extract lib target) as [f|e]; [|intros []].
  destruct (compose_cases lib (sender_name f) (smtp_user f) (VStr default_subject)
              (VStr []) (VStr (u "html")) (VStr (u "utf-8")) to_emails cc_emails [])
    as [(e & Hc)|(m & Hc & Hh)]; rewrite Hc; [intros []|].
  destruct (compose_fields lib _ _ _ _ _ _ _ _ _ _ _ Hc) as (Ht & Hst & Hcs).
  cbv zeta.
  destruct (smtp_connect lib _ _).
  { simpl. intros [H|[]]. discriminate. }
  destruct (smtp_login lib _ _).
  { simpl. intros [H|[H|[H|[]]]]; discriminate. }
  destruct (as_string lib m) as [raw'|e] eqn:Hraw.
  2:{ simpl. intros [H|[H|[H|[]]]]; discriminate. }
  assert (Hgoal : raw' = raw ->
            exists message, as_string lib message = Ok raw
              /\ _text message = VStr [] /\ _subtype message = VStr (u "html")
              /\ _charset message = VStr (u "utf-8")
              /\ In ("Subject", {| h_value := VStr (u "来自 Dify 的邮件通知");
                                   h_charset := VStr (u "utf-8") |}) (headers message)).
  { intros <-. exists m. repeat split; try assumption.
    rewrite Hh. unfold expected_headers.
    apply in_or_app. right. apply in_or_app. right. left. reflexivity. }
  simpl. intros [H|[H|[H|[H|[]]]]]; try discriminate.
  injection H as _ _ H. exact (Hgoal H).
Qed.

(** X16. A chosen record whose fields cannot all be read is answered with
    the send-failure prefix followed by the text of the first read that
    fails, in the order [server], [port], [user], [password],
    [sender_name]: the quoted name of the key when the key is missing,
    and the text of the [int] error when the port is there and [int]
    rejects it.  Nothing is handed to the transport. *)
Theorem first_failing_field_message (credentials : credentials_t) (user_id : str)
    (tool_parameters : dict) (target : dict) (to_emails cc_emails bcc_emails : list str) :
  reaches_try credentials tool_parameters target to_emails cc_emails bcc_emails ->
  let answer text :=
    run (_invoke lib credentials user_id tool_parameters)
    = (Ok (JsonMessage [("status", u "error");
                        ("error_message", u "邮件发送失败: " ++ text)]),
       []) in
  let quoted key := u ("'" +:+ key +:+ "'") in
  (target !! "server" = None -> answer (quoted "server"))
  /\ (is_Some (target !! "server") ->
      (target !! "port" = None -> answer (quoted "port"))
      /\ (forall pv e, target !! "port" = Some pv -> py_int lib pv = Raise e ->
          answer (exc_str e))
      /\ (forall pv port, target !! "port" = Some pv -> py_int lib pv = Ok port ->
          (target !! "user" = None -> answer (quoted "user"))
          /\ (is_Some (target !! "user") ->
              (target !! "password" = None -> answer (quoted "password"))
              /\ (is_Some (target !! "password") ->
                  target !! "sender_name" = None -> answer (quoted "sender_name"))))).
Proof.
  intros Hreach. cbv zeta.
  rewrite (invoke_outcome lib _ _ _ _ _ _ _ Hreach).
  unfold extract, getitem.
  split; [intros ->; reflexivity|].
  intros [s ->]. split; [intros ->; reflexivity|].
  split; [intros pv e -> ->; reflexivity|].
  intros pv port -> ->. split; [intros ->; reflexivity|].
  intros [us ->]. split; [intros ->; reflexivity|].
  intros [pw ->] ->. reflexivity.
Qed.

End Agreement.

(** X14. The connection test and the send path address the transport
    with the same arguments, each in a session of its own (the two
    transports may answer differently): for a chosen record with every
    field the send path reads, the test connects to the record's server
    and port and then only logs in with its user and password and
    releases, and every connect and login of the invocation carries those
    same arguments. *)
Theorem test_and_send_same_arguments (lib_test lib_send : library)
    (credentials : credentials_t) (user_id : str)
    (tool_parameters : dict) (target : dict) (to_emails cc_emails bcc_emails : list str)
    (f : smtp_fields) :
  (forall s, int_of_str lib_test s = int_of_str lib_send s) ->
  reaches_try credentials tool_parameters target to_emails cc_emails bcc_emails ->
  extract lib_send target = Ok f ->
  (exists rest,
     snd (run (test_connection lib_test target))
     = EvConnect (smtp_server f) (smtp_port f) :: rest
     /\ forall ev, In ev rest ->
                   ev = EvLogin (smtp_user f) (smtp_password f) \/ ev = EvClose)
  /\ (forall ev,
        In ev (snd (run (_invoke lib_send credentials user_id tool_parameters))) ->
        match ev with
        | EvConnect server port => server = smtp_server f /\ port = smtp_port f
        | EvLogin user password => user = smtp_user f /\ password = smtp_password f
        | _ => True
        end).
Proof.
  intros Hint Hreach Hf.
  destruct (extract_Ok_inv lib_send _ _ Hf) as (Hs & (pv & Hpv & Hp) & Hu & Hpw & _).
  split.
  - rewrite test_connection_cases. cbv zeta. unfold get.
    rewrite Hs, Hpv, Hu, Hpw. simpl default.
    assert (Hp' : py_int lib_test pv = Ok (smtp_port f)).
    { rewrite <- Hp. destruct pv; simpl; try reflexivity. apply Hint. }
    rewrite Hp'.
    destruct (smtp_connect lib_test _ _).
    + exists []. split; [reflexivity | intros ev []].
    + exists [EvLogin (smtp_user f) (smtp_password f); EvClose].
      split.
      * destruct (smtp_quit lib_test _); [|destruct (smtp_login lib_test _ _)];
          reflexivity.
      * intros ev [<-|[<-|[]]]; auto.
  - intros ev Hev.
    pose proof (transport_uses_selected_account lib_send _ _ _ _ _ _ _ ev Hreach Hev) as H.
    destruct ev as [server port|user password| |]; try exact I.
    + destruct H as (H1 & pv' & H2 & H3). split; [congruence|].
      rewrite Hpv in H2. injection H2 as <-. congruence.
    + destruct H as (H1 & H2). split; congruence.
Qed.

Lemma test_connection_reads_four_keys_witness :
  run (test_connection lib_ok (<["note" := VNone]> no_port_record))
  = run (test_connection lib_ok no_port_record)
  /\ run (test_connection lib_ok (delete "note" no_port_record))
     = run (test_connection lib_ok no_port_record).
Proof.
  apply (test_connection_reads_four_keys lib_ok no_port_record "note" VNone).
  simpl. intros [H|[H|[H|[H|[]]]]]; discriminate.
Defined.

Lemma test_and_send_same_arguments_witness :
  (exists rest,
     snd (run (test_connection lib_auth_fails (account "b" true)))
     = EvConnect (VStr (u "smtp.example.com")) 465 :: rest
     /\ forall ev, In ev rest ->
                   ev = EvLogin (VStr (u "bot@example.com")) (VStr (u "secret"))
                   \/ ev = EvClose)
  /\ (forall ev,
        In ev (snd (run (_invoke lib_ok {| smtp_accounts := Some two_accounts |} []
                           plain_request))) ->
        match ev with
        | EvConnect server port => server = VStr (u "smtp.example.com") /\ port = 465%Z
        | EvLogin user password =>
            user = VStr (u "bot@example.com") /\ password = VStr (u "secret")
        | _ => True
        end).
Proof.
  refine (test_and_send_same_arguments lib_auth_fails lib_ok
            {| smtp_accounts := Some two_accounts |} []
            plain_request (account "b" true) [u "t@x.com"] [] []
            {| smtp_server := VStr (u "smtp.example.com"); smtp_port := 465;
               smtp_user := VStr (u "bot@example.com"); smtp_password := VStr (u "secret");
               sender_name := VStr (u "Bot") |} _ _ _).
  - intros s. reflexivity.
  - unfold reaches_try. repeat split; try discriminate; vm_compute; reflexivity.
  - vm_compute. reflexivity.
Defined.

Lemma message_defaults_witness :
  exists message,
    as_string lib_ok message = Ok (u "From; To; Subject")
    /\ _text message = VStr []
    /\ _subtype message = VStr (u "html")
    /\ _charset message = VStr (u "utf-8")
    /\ In ("Subject", {| h_value := VStr (u "来自 Dify 的邮件通知");
                         h_charset := VStr (u "utf-8") |})
          (headers message).
Proof.
  apply (message_defaults lib_ok {| smtp_accounts := Some two_accounts |} [] plain_request
           (VStr (u "bot@example.com")) [u "t@x.com"]).
  - vm_compute. reflexivity.
  - vm_compute. reflexivity.
  - vm_compute. reflexivity.
  - vm_compute. reflexivity.
  - vm_compute. right. right. left. reflexivity.
Defined.

Lemma first_failing_field_message_witness :
  run (_invoke lib_ok {| smtp_accounts := Some [no_port_record] |} [] plain_request)
  = (Ok (JsonMessage [("status", u "error");
                      ("error_message", u "邮件发送失败: " ++ u ("'" +:+ "port" +:+ "'"))]),
     []).
Proof.
  refine (proj1 (proj2 (first_failing_field_message lib_ok
                          {| smtp_accounts := Some [no_port_record] |}
                          [] plain_request no_port_record [u "t@x.com"] [] [] _) _) _).
  - unfold reaches_try. repeat split; try discriminate; vm_compute; reflexivity.
  - eexists. vm_compute. reflexivity.
  - vm_compute. reflexivity.
Defined.
